(** * blackbird: the probing engine, the catalog store and the platform map

    A shallow embedding of [blackbirdv2.py] and of
    [src/modules/core/platform_manager.py].

    Python values are modelled as follows.
    - A [str] is a list of characters ([list ascii]); a character is a code
      point below 256.  Text files opened with [encoding="UTF-8"] hold such
      text: the codec layer is not modelled.
    - A value decoded from JSON is a [json] tree.  A [dict] keeps its
      insertion order and is an association list whose keys are distinct
      ([wf_json]).  Numbers are integers of any size.  Outside the
      embedding, where the decoder of the model answers [None] and that of
      the library decodes: documents with fractional or exponent literals,
      with [NaN] or [Infinity], or with an escape [\u] above [00ff].  The
      limit that CPython 3.11 puts on the conversion between [int] and
      [str] (4300 digits by default, [ValueError] beyond) is not modelled:
      integers are converted whatever their length, as before 3.11 and as
      with the limit set to 0.
    - Effects (the catalog file, the remote server, the console) are threaded
      through an explicit [world]; exceptions are a [Raise] result.
    - The event loop of asyncio is a schedule: the list of the tasks it
      resumes, in the order it resumes them.

    The functions of the Python library that the program calls
    ([str.replace], [str.format], [bytes.strip], [json.dump], [json.dumps],
    [json.load], [hashlib.md5], [asyncio.gather], and [response.json()] of
    requests and of aiohttp) are modelled after the library. *)

From Stdlib Require Import ZArith NArith Ascii String List Lia.
From Stdlib Require Import Decimal DecimalFacts DecimalPos DecimalN DecimalZ.
From stdpp Require Import base decidable option list sorting gmap.

Open Scope string_scope.
Open Scope list_scope.
Open Scope Z_scope.

(** ** Strings *)

Abbreviation str := (list ascii).

Definition lit (s : string) : str := list_ascii_of_string s.
Coercion lit : string >-> list.

Definition chr (n : N) : ascii := ascii_of_N n.
Definition ord (c : ascii) : N := N_of_ascii c.

Definition dquote : ascii := chr 34.
Definition backslash : ascii := chr 92.
Definition newline : ascii := chr 10.

(** Writes a literal with ['] where the text has a double quote. *)
Definition q (s : string) : str :=
  map (fun c => if Ascii.eqb c "'"%char then dquote else c) (lit s).

Fixpoint is_prefix (p s : str) : bool :=
  match p, s with
  | [], _ => true
  | _ :: _, [] => false
  | a :: p', b :: s' => Ascii.eqb a b && is_prefix p' s'
  end.

(** [str.replace(old, new)]: every occurrence of [old], scanning from the
    left, occurrences not overlapping.  [skip] counts the characters of a
    matched occurrence still to be dropped. *)
Fixpoint replace_from (old new : str) (skip : nat) (s : str) : str :=
  match s with
  | [] => []
  | c :: s' =>
      match skip with
      | S k => replace_from old new k s'
      | O =>
          if is_prefix old s
          then new ++ replace_from old new (Nat.pred (length old)) s'
          else c :: replace_from old new 0 s'
      end
  end.

Definition str_replace (old new s : str) : str :=
  match old with
  | [] => new ++ flat_map (fun c => c :: new) s
  | _ :: _ => replace_from old new 0 s
  end.

(** Python compares strings by code point, lexicographically. *)
Fixpoint str_ltb (a b : str) : bool :=
  match a, b with
  | _, [] => false
  | [], _ :: _ => true
  | x :: a', y :: b' =>
      match N.compare (ord x) (ord y) with
      | Lt => true
      | Gt => false
      | Eq => str_ltb a' b'
      end
  end.

Definition str_lt (a b : str) : Prop := str_ltb a b = true.
Definition str_le (a b : str) : Prop := str_ltb b a = false.

(** ** JSON values *)

Unset Elimination Schemes.
Inductive json : Type :=
| JNull
| JBool (b : bool)
| JInt (n : Z)
| JStr (s : str)
| JArr (l : list json)
| JObj (d : list (str * json)).
Set Elimination Schemes.

(** Induction on a value with the hypothesis for every element. *)
Section json_ind.
Variable P : json -> Prop.
Hypothesis Hnull : P JNull.
Hypothesis Hbool : forall b, P (JBool b).
Hypothesis Hint : forall n, P (JInt n).
Hypothesis Hstr : forall s, P (JStr s).
Hypothesis Harr : forall l, Forall P l -> P (JArr l).
Hypothesis Hobj : forall d, Forall (fun kv => P (snd kv)) d -> P (JObj d).

Fixpoint json_ind (v : json) : P v :=
  match v with
  | JNull => Hnull
  | JBool b => Hbool b
  | JInt n => Hint n
  | JStr s => Hstr s
  | JArr l =>
      Harr l ((fix go (l : list json) : Forall P l :=
                 match l with
                 | [] => @List.Forall_nil _ P
                 | x :: l' => @List.Forall_cons _ P x l' (json_ind x) (go l')
                 end) l)
  | JObj d =>
      Hobj d ((fix go (d : list (str * json)) : Forall (fun kv => P (snd kv)) d :=
                 match d with
                 | [] => @List.Forall_nil _ _
                 | kv :: d' => @List.Forall_cons _ _ kv d' (json_ind (snd kv)) (go d')
                 end) d)
  end.
End json_ind.

Fixpoint wf_json (v : json) : Prop :=
  match v with
  | JArr l => (fix all (l : list json) : Prop :=
                 match l with [] => True | x :: l' => wf_json x /\ all l' end) l
  | JObj d => NoDup (map fst d) /\
              (fix all (d : list (str * json)) : Prop :=
                 match d with [] => True | kv :: d' => wf_json (snd kv) /\ all d' end) d
  | _ => True
  end.

(** [d.get(k)] on an association list. *)
Fixpoint dict_get (k : str) (d : list (str * json)) : option json :=
  match d with
  | [] => None
  | (k', v) :: d' => if decide (k = k') then Some v else dict_get k d'
  end.

(** [d[k] = v]: an existing key keeps its position, a new one goes last. *)
Fixpoint dict_set (k : str) (v : json) (d : list (str * json)) : list (str * json) :=
  match d with
  | [] => [(k, v)]
  | (k', v') :: d' => if decide (k = k') then (k, v) :: d' else (k', v') :: dict_set k v d'
  end.

(** [dict(pairs)] *)
Definition dict_of_pairs (pairs : list (str * json)) : list (str * json) :=
  fold_left (fun d kv => dict_set (fst kv) (snd kv) d) pairs [].

(** ** The JSON encoder ([json.dump], [json.dumps])

    One encoder, configured as the keyword arguments of the library are:
    [indent], [ensure_ascii] and [sort_keys].  The item separator is [","]
    with an indent and [", "] without; the key separator is [": "]. *)

Record encoder := {
  indent : option nat;
  ensure_ascii : bool;
  sort_keys : bool;
}.

Definition hex_digit (n : N) : ascii :=
  if (n <? 10)%N then chr (48 + n) else chr (87 + n).

(** ["\\u{0:04x}".format(n)] for [n < 256] *)
Definition escape_u (n : N) : str :=
  [backslash; "u"%char; "0"%char; "0"%char; hex_digit (n / 16); hex_digit (n mod 16)].

Definition escape_char (ea : bool) (c : ascii) : str :=
  let n := ord c in
  if (n =? 34)%N then [backslash; dquote]
  else if (n =? 92)%N then [backslash; backslash]
  else if (n =? 10)%N then [backslash; "n"%char]
  else if (n =? 13)%N then [backslash; "r"%char]
  else if (n =? 9)%N then [backslash; "t"%char]
  else if (n =? 8)%N then [backslash; "b"%char]
  else if (n =? 12)%N then [backslash; "f"%char]
  else if (n <? 32)%N then escape_u n
  else if ea && (126 <? n)%N then escape_u n
  else [c].

Definition encode_str (ea : bool) (s : str) : str :=
  dquote :: flat_map (escape_char ea) s ++ [dquote].

Fixpoint uint_chars (d : Decimal.uint) : str :=
  match d with
  | Nil => []
  | D0 d => "0"%char :: uint_chars d
  | D1 d => "1"%char :: uint_chars d
  | D2 d => "2"%char :: uint_chars d
  | D3 d => "3"%char :: uint_chars d
  | D4 d => "4"%char :: uint_chars d
  | D5 d => "5"%char :: uint_chars d
  | D6 d => "6"%char :: uint_chars d
  | D7 d => "7"%char :: uint_chars d
  | D8 d => "8"%char :: uint_chars d
  | D9 d => "9"%char :: uint_chars d
  end.

(** [int.__repr__], for an integer of any length. *)
Definition int_repr (n : Z) : str :=
  match Z.to_int n with
  | Pos d => uint_chars d
  | Neg d => "-"%char :: uint_chars d
  end.

Definition item_separator (e : encoder) : str :=
  match indent e with None => ", " | Some _ => "," end.

Definition key_separator : str := ": ".

Definition newline_indent (e : encoder) (lvl : nat) : str :=
  match indent e with
  | None => []
  | Some k => newline :: repeat " "%char (k * lvl)
  end.

Fixpoint join (sep : str) (chunks : list str) : str :=
  match chunks with
  | [] => []
  | [x] => x
  | x :: rest => x ++ sep ++ join sep rest
  end.

Definition key_le (x y : str * str) : Prop := str_le (fst x) (fst y).

#[global] Instance key_le_dec x y : Decision (key_le x y).
Proof. unfold key_le, str_le. apply _. Defined.

(** [sorted(dct.items())]: the keys of a dict are distinct, so the order of
    the items is decided by the keys alone. *)
Definition sort_items (e : encoder) (items : list (str * str)) : list (str * str) :=
  if sort_keys e then merge_sort key_le items else items.

Fixpoint encode (e : encoder) (lvl : nat) (v : json) : str :=
  match v with
  | JNull => "null"
  | JBool true => "true"
  | JBool false => "false"
  | JInt n => int_repr n
  | JStr s => encode_str (ensure_ascii e) s
  | JArr [] => "[]"
  | JArr l =>
      "[" ++ newline_indent e (S lvl)
          ++ join (item_separator e ++ newline_indent e (S lvl)) (map (encode e (S lvl)) l)
          ++ newline_indent e lvl ++ "]"
  | JObj [] => "{}"
  | JObj d =>
      let items := map (fun kv => (fst kv, encode e (S lvl) (snd kv))) d in
      "{" ++ newline_indent e (S lvl)
          ++ join (item_separator e ++ newline_indent e (S lvl))
               (map (fun kt => encode_str (ensure_ascii e) (fst kt) ++ key_separator ++ snd kt)
                    (sort_items e items))
          ++ newline_indent e lvl ++ "}"
  end.

(** [json.dump(obj, f, indent=4, ensure_ascii=False)] *)
Definition dump_encoder : encoder :=
  {| indent := Some 4%nat; ensure_ascii := false; sort_keys := false |}.

(** [json.dumps(obj, sort_keys=True)] *)
Definition hash_encoder : encoder :=
  {| indent := None; ensure_ascii := true; sort_keys := true |}.

Definition json_dumps (e : encoder) (v : json) : str := encode e 0 v.

(** ** The JSON decoder ([json.load], [response.json()])

    The scanner of the library's decoder, on the text still to be read
    instead of an index into it.  [None] is [JSONDecodeError], for the
    documents of the embedding: integers of any length are decoded, and
    the numbers and escapes listed at the head of the file are refused. *)

Definition is_ws (c : ascii) : bool :=
  let n := ord c in ((n =? 32) || (n =? 9) || (n =? 10) || (n =? 13))%N.

Fixpoint skip_ws (s : str) : str :=
  match s with
  | c :: s' => if is_ws c then skip_ws s' else s
  | [] => []
  end.

Definition hex_val (c : ascii) : option N :=
  let n := ord c in
  if ((48 <=? n) && (n <=? 57))%N then Some (n - 48)%N
  else if ((97 <=? n) && (n <=? 102))%N then Some (n - 87)%N
  else if ((65 <=? n) && (n <=? 70))%N then Some (n - 55)%N
  else None.

Definition hex4 (a b c d : ascii) : option N :=
  match hex_val a, hex_val b, hex_val c, hex_val d with
  | Some x, Some y, Some z, Some w => Some (((x * 16 + y) * 16 + z) * 16 + w)%N
  | _, _, _, _ => None
  end.

(** The table [BACKSLASH] of the decoder. *)
Definition unescape (c : ascii) : option ascii :=
  let n := ord c in
  if (n =? 34)%N then Some dquote
  else if (n =? 92)%N then Some backslash
  else if (n =? 47)%N then Some "/"%char
  else if (n =? 98)%N then Some (chr 8)
  else if (n =? 102)%N then Some (chr 12)
  else if (n =? 110)%N then Some (chr 10)
  else if (n =? 114)%N then Some (chr 13)
  else if (n =? 116)%N then Some (chr 9)
  else None.

Definition cons_fst {A B : Type} (a : A) (r : option (list A * B)) : option (list A * B) :=
  match r with
  | Some (l, b) => Some (a :: l, b)
  | None => None
  end.

(** [scanstring(s, end, strict=True)], from the character after the opening
    quote.  An escape [\uXXXX] above 255 leaves the alphabet of the
    embedding and is rejected. *)
Fixpoint scan_string (s : str) : option (str * str) :=
  match s with
  | [] => None
  | c :: s' =>
      if (ord c =? 34)%N then Some ([], s')
      else if (ord c =? 92)%N then
        match s' with
        | [] => None
        | e :: s'' =>
            if (ord e =? 117)%N then
              match s'' with
              | a :: b :: c' :: d :: s3 =>
                  match hex4 a b c' d with
                  | Some n => if (n <? 256)%N then cons_fst (chr n) (scan_string s3) else None
                  | None => None
                  end
              | _ => None
              end
            else
              match unescape e with
              | Some x => cons_fst x (scan_string s'')
              | None => None
              end
        end
      else if (ord c <? 32)%N then None
      else cons_fst c (scan_string s')
  end.

Definition digit_of (c : ascii) : option (Decimal.uint -> Decimal.uint) :=
  match ord c with
  | 48%N => Some D0 | 49%N => Some D1 | 50%N => Some D2 | 51%N => Some D3
  | 52%N => Some D4 | 53%N => Some D5 | 54%N => Some D6 | 55%N => Some D7
  | 56%N => Some D8 | 57%N => Some D9
  | _ => None
  end.

Definition is_digit (c : ascii) : bool :=
  match digit_of c with Some _ => true | None => false end.

Fixpoint scan_digits (s : str) : Decimal.uint * str :=
  match s with
  | [] => (Nil, [])
  | c :: s' =>
      match digit_of c with
      | Some D => let (d, rest) := scan_digits s' in (D d, rest)
      | None => (Nil, s)
      end
  end.

(** The integer part of [NUMBER_RE]: [0|[1-9]\d*]. *)
Definition scan_integer (s : str) : option (Decimal.uint * str) :=
  match s with
  | [] => None
  | c :: s' =>
      if (ord c =? 48)%N then Some (D0 Nil, s')
      else if is_digit c then Some (scan_digits s)
      else None
  end.

(** [(\.\d+)?] and [([eE][-+]?\d+)?] of [NUMBER_RE] *)
Definition has_frac (s : str) : bool :=
  match s with
  | p :: c :: _ => (ord p =? 46)%N && is_digit c
  | _ => false
  end.

Definition has_exp (s : str) : bool :=
  match s with
  | e :: c :: r =>
      ((ord e =? 101) || (ord e =? 69))%N &&
      (is_digit c ||
       (((ord c =? 43) || (ord c =? 45))%N &&
        match r with d :: _ => is_digit d | [] => false end))
  | _ => false
  end.

Definition scan_number (s : str) : option (json * str) :=
  let '(neg, s1) :=
    match s with
    | c :: s' => if (ord c =? 45)%N then (true, s') else (false, s)
    | [] => (false, s)
    end in
  match scan_integer s1 with
  | None => None
  | Some (d, rest) =>
      if has_frac rest || has_exp rest then None
      else Some (JInt (Z.of_int (if neg : bool then Neg d else Pos d)), rest)
  end.

(** [scan_once], [JSONArray] and [JSONObject].  [n] bounds the depth of the
    calls; [array_items] starts at an item, [object_items] at a key. *)
Fixpoint scan_once (n : nat) (s : str) {struct n} : option (json * str) :=
  match n with
  | O => None
  | S n' =>
      match s with
      | [] => None
      | c :: s' =>
          if (ord c =? 34)%N then
            match scan_string s' with
            | Some (x, rest) => Some (JStr x, rest)
            | None => None
            end
          else if (ord c =? 123)%N then
            match skip_ws s' with
            | c1 :: r1 =>
                if (ord c1 =? 125)%N then Some (JObj [], r1)
                else
                  match object_items n' (c1 :: r1) with
                  | Some (pairs, rest) => Some (JObj (dict_of_pairs pairs), rest)
                  | None => None
                  end
            | [] => None
            end
          else if (ord c =? 91)%N then
            match skip_ws s' with
            | c1 :: r1 =>
                if (ord c1 =? 93)%N then Some (JArr [], r1)
                else
                  match array_items n' (c1 :: r1) with
                  | Some (l, rest) => Some (JArr l, rest)
                  | None => None
                  end
            | [] => None
            end
          else if is_prefix "null" s then Some (JNull, drop 4 s)
          else if is_prefix "true" s then Some (JBool true, drop 4 s)
          else if is_prefix "false" s then Some (JBool false, drop 5 s)
          else scan_number s
      end
  end
with array_items (n : nat) (s : str) {struct n} : option (list json * str) :=
  match n with
  | O => None
  | S n' =>
      match scan_once n' s with
      | None => None
      | Some (v, rest) =>
          match skip_ws rest with
          | c :: r =>
              if (ord c =? 93)%N then Some ([v], r)
              else if (ord c =? 44)%N then cons_fst v (array_items n' (skip_ws r))
              else None
          | [] => None
          end
      end
  end
with object_items (n : nat) (s : str) {struct n} : option (list (str * json) * str) :=
  match n with
  | O => None
  | S n' =>
      match s with
      | [] => None
      | c :: s' =>
          if (ord c =? 34)%N then
            match scan_string s' with
            | None => None
            | Some (k, r1) =>
                match skip_ws r1 with
                | c2 :: r2 =>
                    if (ord c2 =? 58)%N then
                      match scan_once n' (skip_ws r2) with
                      | None => None
                      | Some (v, r3) =>
                          match skip_ws r3 with
                          | c4 :: r4 =>
                              if (ord c4 =? 125)%N then Some ([(k, v)], r4)
                              else if (ord c4 =? 44)%N
                              then cons_fst (k, v) (object_items n' (skip_ws r4))
                              else None
                          | [] => None
                          end
                      end
                    else None
                | [] => None
                end
            end
          else None
      end
  end.

(** [json.loads(s)]: a value, then nothing but white space. *)
Definition json_loads (s : str) : option json :=
  match scan_once (2 * length s + 1) (skip_ws s) with
  | Some (v, rest) =>
      match skip_ws rest with
      | [] => Some v
      | _ :: _ => None
      end
  | None => None
  end.

(** ** MD5 ([hashlib.md5(data).hexdigest()]), after RFC 1321

    Words are 32-bit integers in [Z] with the wrap-around written out. *)

Module MD5.

Definition w32 (x : Z) : Z := Z.land x 0xffffffff.

Definition rotl (x c : Z) : Z :=
  w32 (Z.lor (Z.shiftl x c) (Z.shiftr x (32 - c))).

Definition shifts : list Z :=
  [7; 12; 17; 22; 7; 12; 17; 22; 7; 12; 17; 22; 7; 12; 17; 22;
   5; 9; 14; 20; 5; 9; 14; 20; 5; 9; 14; 20; 5; 9; 14; 20;
   4; 11; 16; 23; 4; 11; 16; 23; 4; 11; 16; 23; 4; 11; 16; 23;
   6; 10; 15; 21; 6; 10; 15; 21; 6; 10; 15; 21; 6; 10; 15; 21].

Definition sines : list Z :=
  [0xd76aa478; 0xe8c7b756; 0x242070db; 0xc1bdceee; 0xf57c0faf; 0x4787c62a;
   0xa8304613; 0xfd469501; 0x698098d8; 0x8b44f7af; 0xffff5bb1; 0x895cd7be;
   0x6b901122; 0xfd987193; 0xa679438e; 0x49b40821; 0xf61e2562; 0xc040b340;
   0x265e5a51; 0xe9b6c7aa; 0xd62f105d; 0x02441453; 0xd8a1e681; 0xe7d3fbc8;
   0x21e1cde6; 0xc33707d6; 0xf4d50d87; 0x455a14ed; 0xa9e3e905; 0xfcefa3f8;
   0x676f02d9; 0x8d2a4c8a; 0xfffa3942; 0x8771f681; 0x6d9d6122; 0xfde5380c;
   0xa4beea44; 0x4bdecfa9; 0xf6bb4b60; 0xbebfbc70; 0x289b7ec6; 0xeaa127fa;
   0xd4ef3085; 0x04881d05; 0xd9d4d039; 0xe6db99e5; 0x1fa27cf8; 0xc4ac5665;
   0xf4292244; 0x432aff97; 0xab9423a7; 0xfc93a039; 0x655b59c3; 0x8f0ccc92;
   0xffeff47d; 0x85845dd1; 0x6fa87e4f; 0xfe2ce6e0; 0xa3014314; 0x4e0811a1;
   0xf7537e82; 0xbd3af235; 0x2ad7d2bb; 0xeb86d391].

Record state := { sa : Z; sb : Z; sc : Z; sd : Z }.

Definition init : state :=
  {| sa := 0x67452301; sb := 0xefcdab89; sc := 0x98badcfe; sd := 0x10325476 |}.

Definition lnot32 (x : Z) : Z := Z.lxor x 0xffffffff.

(** One of the 64 operations on a block of sixteen words [m]. *)
Definition step (m : list Z) (st : state) (i : nat) : state :=
  let '(a, b, c, d) := (sa st, sb st, sc st, sd st) in
  let '(f, g) :=
    if (i <? 16)%nat then (Z.lor (Z.land b c) (Z.land (lnot32 b) d), i)
    else if (i <? 32)%nat then
      (Z.lor (Z.land d b) (Z.land (lnot32 d) c), ((5 * i + 1) mod 16)%nat)
    else if (i <? 48)%nat then (Z.lxor (Z.lxor b c) d, ((3 * i + 5) mod 16)%nat)
    else (Z.lxor c (Z.lor b (lnot32 d)), ((7 * i) mod 16)%nat) in
  let f' := w32 (f + a + nth i sines 0 + nth g m 0) in
  {| sa := d; sd := c; sc := b; sb := w32 (b + rotl f' (nth i shifts 0)) |}.

Definition block (st : state) (m : list Z) : state :=
  let st' := fold_left (step m) (seq 0 64) st in
  {| sa := w32 (sa st + sa st'); sb := w32 (sb st + sb st');
     sc := w32 (sc st + sc st'); sd := w32 (sd st + sd st') |}.

(** [k] bytes of [x], least significant first. *)
Fixpoint le_bytes (k : nat) (x : Z) : list Z :=
  match k with
  | O => []
  | S k' => Z.land x 255 :: le_bytes k' (Z.shiftr x 8)
  end.

Fixpoint le_word (bytes : list Z) : Z :=
  match bytes with
  | [] => 0
  | b :: rest => Z.lor b (Z.shiftl (le_word rest) 8)
  end.

Definition pad (msg : list Z) : list Z :=
  let len := length msg in
  let zeros := ((119 - len mod 64) mod 64)%nat in
  msg ++ [128] ++ repeat 0 zeros ++ le_bytes 8 (8 * Z.of_nat len).

(** Cuts [n] groups of [k] elements. *)
Fixpoint chunks {A : Type} (k n : nat) (l : list A) : list (list A) :=
  match n with
  | O => []
  | S n' => take k l :: chunks k n' (drop k l)
  end.

Definition digest (msg : list Z) : list Z :=
  let p := pad msg in
  let blocks := map (fun b => map le_word (chunks 4 16 b)) (chunks 64 (length p / 64) p) in
  let st := fold_left block blocks init in
  le_bytes 4 (sa st) ++ le_bytes 4 (sb st) ++ le_bytes 4 (sc st) ++ le_bytes 4 (sd st).

Definition hex_byte (b : Z) : str :=
  [hex_digit (Z.to_N (b / 16)); hex_digit (Z.to_N (b mod 16))].

Definition hexdigest (data : list Z) : str := flat_map hex_byte (digest data).

End MD5.

(** [s.encode("utf-8")] on text whose characters are all below 128, which is
    what the encoder yields with [ensure_ascii]. *)
Definition encode_utf8 (s : str) : list Z := map (fun c => Z.of_N (ord c)) s.

(** ** Exceptions, the world and the monad of the program *)

Inductive net_failure := ConnectionRefused | TimedOut | TLSFailure | DNSFailure.

Inductive exn :=
| FileNotFoundError
| JSONDecodeError
| OSError
| NetworkError (k : net_failure)
| KeyError (k : str)
| TypeError
| AttributeError
| IndexError
| ValueError.

Inductive result (A : Type) :=
| Ok (a : A)
| Raise (e : exn).
Arguments Ok {A} a.
Arguments Raise {A} e.

(** What an HTTP exchange that completed gives back. *)
Record response := {
  status : Z;
  json_content_type : bool;
  body : str;
}.

Inductive exchange :=
| Failed (k : net_failure)
| Completed (r : response).

(** The environment variables read when the module is loaded. *)
Record config := {
  listURL : str;
  listFileName : str;
  proxy : option str;
}.

Record world := {
  files : gmap str str;
  (** [Some k]: the device fails once [k] more characters are written *)
  disk_budget : option nat;
  (** the answer to the n-th synchronous request, by method and URL *)
  server : nat -> str -> str -> exchange;
  served : nat;
  (** the answer to the probe of the i-th task, by method and URL *)
  aio_server : nat -> str -> str -> exchange;
  console : list str;
}.

Definition M (A : Type) : Type := world -> result A * world.

#[global] Instance M_ret : MRet M := fun A a w => (Ok a, w).

#[global] Instance M_bind : MBind M := fun A B f m w =>
  match m w with
  | (Ok a, w') => f a w'
  | (Raise e, w') => (Raise e, w')
  end.

Definition raise {A : Type} (e : exn) : M A := fun w => (Raise e, w).

(** The world after some lines are printed. *)
Definition emit (lines : list str) (w : world) : world :=
  {| files := files w; disk_budget := disk_budget w; server := server w;
     served := served w; aio_server := aio_server w;
     console := console w ++ lines |}.

(** The world after one more synchronous request. *)
Definition tick (w : world) : world :=
  {| files := files w; disk_budget := disk_budget w; server := server w;
     served := S (served w); aio_server := aio_server w; console := console w |}.

Definition set_file (path text : str) (budget : option nat) (w : world) : world :=
  {| files := <[path := text]> (files w); disk_budget := budget; server := server w;
     served := served w; aio_server := aio_server w; console := console w |}.

Definition print (line : str) : M unit := fun w => (Ok tt, emit [line] w).

(** [with open(path, "w", encoding="UTF-8") as f: f.write(text)].  Opening
    truncates the file; the characters reach it in order, and a device that
    fails leaves those written so far. *)
Definition write_file (path text : str) : M unit := fun w =>
  match disk_budget w with
  | None => (Ok tt, set_file path text None w)
  | Some k =>
      if (k <? length text)%nat
      then (Raise OSError, set_file path (take k text) (Some 0%nat) w)
      else (Ok tt, set_file path text (Some (k - length text)%nat) w)
  end.

(** [with open(path, "r", encoding="UTF-8") as f] *)
Definition read_file (path : str) : M str := fun w =>
  match files w !! path with
  | Some text => (Ok text, w)
  | None => (Raise FileNotFoundError, w)
  end.

(** [os.path.isfile(path)] *)
Definition isfile (path : str) (w : world) : bool :=
  bool_decide (is_Some (files w !! path)).

(** [requests.request(method=method, url=url, ...)] *)
Definition requests_request (method url : str) : M response := fun w =>
  match server w (served w) method url with
  | Failed k => (Raise (NetworkError k), tick w)
  | Completed r => (Ok r, tick w)
  end.

(** [response.json()] of requests: decodes the body, whatever its type. *)
Definition requests_json (r : response) : option json := json_loads (body r).

(** [bytes.strip()]: the ASCII white space, which has the vertical tab
    and the form feed besides the four characters of [is_ws], goes from
    both ends. *)
Definition bytes_space (c : ascii) : bool :=
  let n := ord c in ((n =? 32) || ((9 <=? n) && (n <=? 13)))%N.

Fixpoint bytes_lstrip (s : str) : str :=
  match s with
  | c :: s' => if bytes_space c then bytes_lstrip s' else s
  | [] => []
  end.

Definition bytes_strip (s : str) : str := rev (bytes_lstrip (rev (bytes_lstrip s))).

(** [await response.json()] of aiohttp: raises for a body whose content
    type is not JSON; strips the body, returns [None] when nothing is
    left, and decodes what is left otherwise. *)
Definition aiohttp_json (r : response) : option json :=
  if json_content_type r then
    match bytes_strip (body r) with
    | [] => Some JNull
    | stripped => json_loads stripped
    end
  else None.

(** [parsedData = None; try: parsedData = ... except: pass] *)
Definition swallow (decoded : option json) : json :=
  match decoded with
  | Some v => v
  | None => JNull
  end.

(** ** blackbirdv2.py *)

Section Blackbird.

Variable cfg : config.

(** Lines 15-23.  The proxy and the TLS policy are part of what the server
    answers. *)
Definition doSyncRequest (method url : str) : M (response * json) :=
  response ← requests_request method url;
  mret (response, swallow (requests_json response)).

(** Lines 38-41. *)
Definition readList : M json :=
  text ← read_file (listFileName cfg);
  match json_loads text with
  | Some data => mret data
  | None => raise JSONDecodeError
  end.

(** Lines 44-47. *)
Definition downloadList : M unit :=
  '(response, parsedData) ← doSyncRequest "GET" (listURL cfg);
  write_file (listFileName cfg) (json_dumps dump_encoder parsedData).

(** Lines 50-53. *)
Definition hashJSON (jsonData : json) : str :=
  let dumpJson := json_dumps hash_encoder jsonData in
  MD5.hexdigest (encode_utf8 dumpJson).

(** Lines 78-92. *)
Definition checkUpdates : M unit := fun w =>
  if isfile (listFileName cfg) w then
    (_ ← print "[-] Checking for updates...";
     data ← readList;
     let currentListHash := hashJSON data in
     '(response, data) ← doSyncRequest "GET" (listURL cfg);
     let remoteListHash := hashJSON data in
     if decide (currentListHash ≠ remoteListHash) then
       _ ← print "[!] Updating...";
       downloadList
     else
       print "[+] List is up to date") w
  else
    (_ ← print "[!] Downloading WhatsMyName list";
     downloadList) w.

(** *** The probes

    What a task of [asyncio.gather(..., return_exceptions=True)] leaves in
    its slot: the value its coroutine returned, or the exception it raised. *)

Inductive outcome :=
| Returned (r : response) (parsedData : json)
| Raised (e : exn).

(** A [doAsyncRequest] coroutine, by the point where it is suspended. *)
Inductive coroutine :=
| Created (method url : str)
| AwaitingResponse (method url : str)
| AwaitingBody (r : response)
| Finished (o : outcome).

(** Lines 26-35.  One resumption of the coroutine of task [i]: it runs to
    its next [await], printing what it prints on the way. *)
Definition doAsyncRequest (w : world) (i : nat) (c : coroutine) : coroutine * list str :=
  match c with
  | Created method url => (AwaitingResponse method url, [lit "Sending request..."])
  | AwaitingResponse method url =>
      match aio_server w i method url with
      | Failed k => (Finished (Raised (NetworkError k)), [])
      | Completed r => (AwaitingBody r, [])
      end
  | AwaitingBody r => (Finished (Returned r (swallow (aiohttp_json r))), [])
  | Finished o => (Finished o, [])
  end.

(** The event loop resumes the task that the schedule names next. *)
Definition loop_step (w : world) (st : list coroutine * list str) (i : nat)
  : list coroutine * list str :=
  match st.1 !! i with
  | Some c => let '(c', out) := doAsyncRequest w i c in (<[i := c']> st.1, st.2 ++ out)
  | None => st
  end.

Definition run_loop (w : world) (sched : list nat) (tasks : list coroutine)
  : list coroutine * list str :=
  fold_left (loop_step w) sched (tasks, []).

Definition slot (c : coroutine) : option outcome :=
  match c with
  | Finished o => Some o
  | _ => None
  end.

(** [await asyncio.gather] of the tasks with [return_exceptions=True], under the schedule
    [sched]: the slots in the order of the tasks, once every task is done;
    [None] while one is still pending when the schedule ends. *)
Definition gather (sched : list nat) (tasks : list coroutine) : M (option (list outcome)) :=
  fun w =>
    let '(tasks', out) := run_loop w sched tasks in
    (Ok (mapM slot tasks'), emit out w).

Definition lift {A : Type} (r : result A) : M A := fun w => (r, w).

(** [v[k]] with a string key *)
Definition subscript (v : json) (k : str) : result json :=
  match v with
  | JObj d =>
      match dict_get k d with
      | Some x => Ok x
      | None => Raise (KeyError k)
      end
  | _ => Raise TypeError
  end.

(** [for x in v] *)
Definition iterate (v : json) : result (list json) :=
  match v with
  | JArr l => Ok l
  | JObj d => Ok (map (fun kv => JStr (fst kv)) d)
  | JStr s => Ok (map (fun c => JStr [c]) s)
  | _ => Raise TypeError
  end.

(** [v.replace(old, new)] *)
Definition replace_method (v : json) (old new : str) : result str :=
  match v with
  | JStr s => Ok (str_replace old new s)
  | _ => Raise AttributeError
  end.

(** [site["uri_check"].replace("{account}", username)] *)
Definition probe_url (username : str) (site : json) : result str :=
  match subscript site "uri_check" with
  | Ok t => replace_method t "{account}" username
  | Raise e => Raise e
  end.

(** The loop that fills [tasks]; the first exception ends it. *)
Fixpoint make_tasks (username : str) (sites : list json) : result (list coroutine) :=
  match sites with
  | [] => Ok []
  | site :: rest =>
      match probe_url username site with
      | Raise e => Raise e
      | Ok url =>
          match make_tasks username rest with
          | Raise e => Raise e
          | Ok tasks => Ok (Created "GET" url :: tasks)
          end
      end
  end.

(** Lines 56-69. *)
Definition fetchResults (username : str) (sched : list nat) : M (option (list outcome)) :=
  data ← readList;
  sites ← lift (subscript data "sites");
  sites ← lift (iterate sites);
  tasks ← lift (make_tasks username sites);
  gather sched tasks.

(** [for item in items: body(item)] *)
Fixpoint for_each {A : Type} (items : list A) (body : A -> M unit) : M unit :=
  match items with
  | [] => mret tt
  | item :: rest => _ ← body item; for_each rest body
  end.

(** Lines 72-75.  [render] is [str] of a result, the text [print] writes
    for it; [None] while [asyncio.run] has not returned. *)
Definition verifyUsername (render : outcome -> str) (username : str) (sched : list nat)
  : M (option unit) :=
  data ← fetchResults username sched;
  match data with
  | Some items => _ ← for_each items (fun item => print (render item)); mret (Some tt)
  | None => mret None
  end.

End Blackbird.

(** ** src/modules/core/platform_manager.py *)

(** *** [str.format] with one positional argument

    The fragment modelled: literal text, the escapes of the braces, and the
    fields [{}] and [{digits}] (and a plain name, which raises).  [None]
    stands for a field with a conversion, a format specification, an
    attribute or an index, which the embedding does not interpret. *)

Inductive numbering := Unset_ | Automatic (next : nat) | Manual.

Definition all_digits (s : str) : bool := forallb is_digit s.

Definition all_zero (s : str) : bool := forallb (fun c => (ord c =? 48)%N) s.

Definition special (c : ascii) : bool :=
  let n := ord c in
  ((n =? 123) || (n =? 33) || (n =? 58) || (n =? 46) || (n =? 91) || (n =? 93))%N.

(** The value of the field named [name], and the numbering after it. *)
Definition field_value (arg name : str) (nb : numbering)
  : option (result str * numbering) :=
  match name with
  | [] =>
      match nb with
      | Manual => Some (Raise ValueError, nb)
      | Unset_ => Some (Ok arg, Automatic 1)
      | Automatic O => Some (Ok arg, Automatic 1)
      | Automatic (S k) => Some (Raise IndexError, nb)
      end
  | _ :: _ =>
      if all_digits name then
        if (18 <? length name)%nat then None
        else
          match nb with
          | Automatic _ => Some (Raise ValueError, nb)
          | _ => Some (if all_zero name then Ok arg else Raise IndexError, Manual)
          end
      else Some (Raise (KeyError name), nb)
  end.

Definition cons_ok (c : ascii) (r : option (result str)) : option (result str) :=
  match r with
  | Some (Ok s) => Some (Ok (c :: s))
  | other => other
  end.

Definition app_ok (x : str) (r : option (result str)) : option (result str) :=
  match r with
  | Some (Ok s) => Some (Ok (x ++ s))
  | other => other
  end.

(** [field] is [None] in literal text, and the reversed name read so far
    inside a field. *)
Fixpoint format_from (arg : str) (field : option str) (nb : numbering) (s : str)
  : option (result str) :=
  match field, s with
  | None, [] => Some (Ok [])
  | None, c :: s' =>
      if (ord c =? 123)%N then
        match s' with
        | c' :: s'' =>
            if (ord c' =? 123)%N then cons_ok c (format_from arg None nb s'')
            else format_from arg (Some []) nb s'
        | [] => Some (Raise ValueError)
        end
      else if (ord c =? 125)%N then
        match s' with
        | c' :: s'' =>
            if (ord c' =? 125)%N then cons_ok c (format_from arg None nb s'')
            else Some (Raise ValueError)
        | [] => Some (Raise ValueError)
        end
      else cons_ok c (format_from arg None nb s')
  | Some acc, [] => Some (Raise ValueError)
  | Some acc, c :: s' =>
      if (ord c =? 125)%N then
        match field_value arg (rev acc) nb with
        | None => None
        | Some (Raise e, _) => Some (Raise e)
        | Some (Ok x, nb') => app_ok x (format_from arg None nb' s')
        end
      else if special c then None
      else format_from arg (Some (c :: acc)) nb s'
  end.

(** [template.format(arg)] *)
Definition str_format (template arg : str) : option (result str) :=
  format_from arg None Unset_ template.

(** *** PlatformURLManager *)

Record PlatformURLManager := {
  platforms : gmap str str;
  categories : gmap str (list str);
}.

(** [_load_default_platforms]: the tables written in the source. *)
Definition default_platforms : gmap str str :=
  list_to_map [
    (lit "Bandcamp", lit "https://bandcamp.com/{}");
    (lit "Chess.com", lit "https://www.chess.com/member/{}");
    (lit "Codeforces", lit "https://codeforces.com/profile/{}");
    (lit "DeviantArt", lit "https://www.deviantart.com/{}");
    (lit "Disqus", lit "https://disqus.com/by/{}/");
    (lit "DockerHub", lit "https://hub.docker.com/u/{}");
    (lit "Eyeem", lit "https://www.eyeem.com/u/{}");
    (lit "GitLab", lit "https://gitlab.com/{}");
    (lit "Hacker News", lit "https://news.ycombinator.com/user?id={}");
    (lit "Hackerearth", lit "https://www.hackerearth.com/@{}");
    (lit "Imgur", lit "https://imgur.com/user/{}");
    (lit "Instructables", lit "https://www.instructables.com/member/{}");
    (lit "Keybase", lit "https://keybase.io/{}");
    (lit "Livejournal", lit "https://{}.livejournal.com");
    (lit "Patreon", lit "https://www.patreon.com/{}");
    (lit "Reddit", lit "https://www.reddit.com/user/{}");
    (lit "SoundCloud", lit "https://soundcloud.com/{}");
    (lit "Spotify", lit "https://open.spotify.com/user/{}");
    (lit "Steam", lit "https://steamcommunity.com/user/{}");
    (lit "Telegram", lit "https://t.me/{}");
    (lit "TikTok", lit "https://www.tiktok.com/@{}");
    (lit "Tumblr", lit "https://{}.tumblr.com");
    (lit "Trello", lit "https://trello.com/u/{}");
    (lit "Twitch", lit "https://www.twitch.tv/{}");
    (lit "Twitter", lit "https://twitter.com/{}");
    (lit "Vimeo", lit "https://vimeo.com/{}");
    (lit "YouTube", lit "https://www.youtube.com/{}");
    (lit "About.me", lit "https://about.me/{}");
    (lit "Academia.edu", lit "https://independent.academia.edu/{}");
    (lit "AngelList", lit "https://angel.co/{}");
    (lit "Behance", lit "https://www.behance.net/{}");
    (lit "Bitbucket", lit "https://bitbucket.org/{}");
    (lit "Blogger", lit "https://{}.blogspot.com");
    (lit "Codepen", lit "https://codepen.io/{}");
    (lit "Dribbble", lit "https://dribbble.com/{}");
    (lit "Etsy", lit "https://www.etsy.com/shop/{}");
    (lit "Facebook", lit "https://www.facebook.com/{}");
    (lit "Flickr", lit "https://www.flickr.com/people/{}");
    (lit "Freelancer", lit "https://www.freelancer.com/u/{}");
    (lit "Goodreads", lit "https://www.goodreads.com/user/show/{}");
    (lit "Instagram", lit "https://www.instagram.com/{}");
    (lit "Last.fm", lit "https://www.last.fm/user/{}");
    (lit "LinkedIn", lit "https://www.linkedin.com/in/{}");
    (lit "Medium", lit "https://medium.com/@{}");
    (lit "Pinterest", lit "https://www.pinterest.com/{}");
    (lit "Product Hunt", lit "https://www.producthunt.com/@{}");
    (lit "Quora", lit "https://www.quora.com/profile/{}");
    (lit "ResearchGate", lit "https://www.researchgate.net/profile/{}");
    (lit "Snapchat", lit "https://www.snapchat.com/add/{}");
    (lit "TripAdvisor", lit "https://www.tripadvisor.com/members/{}");
    (lit "VK", lit "https://vk.com/{}");
    (lit "Wikipedia", lit "https://en.wikipedia.org/wiki/User:{}");
    (lit "Duolingo", lit "https://www.duolingo.com/profile/{}");
    (lit "smule", lit "https://www.smule.com/{}");
    (lit "TryHackMe", lit "https://tryhackme.com/p/{}");
    (lit "Hackerrank", lit "https://www.hackerrank.com/{}");
    (lit "lichess.org", lit "https://lichess.org/@/{}")
  ].

Definition default_categories : gmap str (list str) :=
  list_to_map [
    (lit "social",
     [
       lit "Facebook"; lit "Twitter"; lit "Instagram"; lit "LinkedIn"; lit "Pinterest";
       lit "Snapchat"; lit "TikTok"; lit "Reddit"; lit "Tumblr"; lit "VK"
     ]);
    (lit "professional",
     [
       lit "LinkedIn"; lit "GitHub"; lit "GitLab"; lit "Bitbucket"; lit "DockerHub";
       lit "Behance"; lit "Dribbble"; lit "Freelancer"; lit "AngelList";
       lit "Product Hunt"
     ]);
    (lit "creative",
     [
       lit "DeviantArt"; lit "Behance"; lit "Dribbble"; lit "SoundCloud";
       lit "Bandcamp"; lit "YouTube"; lit "Vimeo"; lit "Flickr"; lit "Etsy";
       lit "Medium"
     ]);
    (lit "gaming",
     [
       lit "Steam"; lit "Twitch"; lit "Chess.com"; lit "lichess.org"; lit "TryHackMe"
     ]);
    (lit "tech",
     [
       lit "GitHub"; lit "GitLab"; lit "Bitbucket"; lit "DockerHub"; lit "Codeforces";
       lit "Hackerrank"; lit "Hackerearth"; lit "Hacker News"; lit "Codepen"
     ]);
    (lit "education",
     [
       lit "Academia.edu"; lit "ResearchGate"; lit "Duolingo"; lit "Quora"
     ])
  ].

Definition _load_default_platforms : PlatformURLManager :=
  {| platforms := default_platforms; categories := default_categories |}.

(** Lines 182-201: [get_profile_url(platform_name, username,
    fallback_url=None)]; a string is true when it is not empty. *)
Definition get_profile_url (self : PlatformURLManager)
    (platform_name username : str) (fallback_url : option str) : option (result str) :=
  let url_template := platforms self !! platform_name in
  match url_template with
  | Some (c :: t) => str_format (c :: t) username
  | _ =>
      match fallback_url with
      | Some (c :: f) => Some (Ok (c :: f))
      | _ => Some (Ok ("Unknown platform: " ++ platform_name))
      end
  end.

(** [members.remove(x)] when [x] is in [members]: the first occurrence
    goes. *)
Fixpoint remove_first (x : str) (members : list str) : list str :=
  match members with
  | [] => []
  | y :: rest => if decide (x = y) then rest else y :: remove_first x rest
  end.

(** Lines 203-220: [add_platform(platform_name, url_template,
    categories=None)]; an empty list of categories is false. *)
Definition add_platform (self : PlatformURLManager) (platform_name url_template : str)
    (cats : option (list str)) : PlatformURLManager :=
  let platforms' := <[platform_name := url_template]> (platforms self) in
  match cats with
  | Some (c :: rest) =>
      {| platforms := platforms';
         categories :=
           fold_left
             (fun cs category =>
                match cs !! category with
                | Some members =>
                    if decide (platform_name ∈ members) then cs
                    else <[category := members ++ [platform_name]]> cs
                | None => <[category := [platform_name]]> cs
                end)
             (c :: rest) (categories self) |}
  | _ => {| platforms := platforms'; categories := categories self |}
  end.

(** Lines 222-241: [remove_platform(platform_name)], with the manager it
    leaves. *)
Definition remove_platform (self : PlatformURLManager) (platform_name : str)
  : bool * PlatformURLManager :=
  if decide (is_Some (platforms self !! platform_name)) then
    (true,
     {| platforms := delete platform_name (platforms self);
        categories :=
          (fun members =>
             if decide (platform_name ∈ members) then remove_first platform_name members
             else members) <$> categories self |})
  else (false, self).

(** Lines 243-253 *)
Definition get_platforms_by_category (self : PlatformURLManager) (category : str) : list str :=
  default [] (categories self !! category).

(** Lines 255-262 *)
Definition get_all_platforms (self : PlatformURLManager) : gmap str str := platforms self.

(** Lines 264-271 *)
Definition get_all_categories (self : PlatformURLManager) : gmap str (list str) :=
  categories self.

(** ** Notions used to state the properties *)

(** [p in s] *)
Fixpoint contains (p s : str) : bool :=
  is_prefix p s || match s with [] => false | _ :: s' => contains p s' end.

(** The placeholder of a [uri_check] template. *)
Definition placeholder : str := "{account}".

(** The depth of calls that decoding the text of [v] takes. *)
Fixpoint need (v : json) : nat :=
  match v with
  | JArr l => S (list_sum (map (fun x => S (need x)) l))
  | JObj d => S (list_sum (map (fun kv => S (need (snd kv))) d))
  | _ => 1
  end.

(** What follows a value in the text the encoder writes. *)
Definition delimiter (c : ascii) : bool :=
  ((ord c =? 44) || (ord c =? 10) || (ord c =? 93) || (ord c =? 125))%N.

Definition delimited (rest : str) : Prop :=
  match rest with
  | [] => True
  | c :: _ => delimiter c = true
  end.

(** The text of [v] is read back as [v], whatever follows it. *)
Definition decodes (e : encoder) (v : json) : Prop :=
  forall n lvl rest, (need v <= n)%nat -> delimited rest ->
    scan_once n (encode e lvl v ++ rest) = Some (v, rest).

(** One item of an object, as the encoder writes it. *)
Definition item_text (e : encoder) (lvl : nat) (kv : str * json) : str :=
  encode_str (ensure_ascii e) (fst kv) ++ key_separator ++ encode e (S lvl) (snd kv).

(** [reordered v v']: [v'] is [v] with the items of its objects, at any
    depth, in another order. *)
Unset Elimination Schemes.
Inductive reordered : json -> json -> Prop :=
| reordered_null : reordered JNull JNull
| reordered_bool b : reordered (JBool b) (JBool b)
| reordered_int n : reordered (JInt n) (JInt n)
| reordered_str s : reordered (JStr s) (JStr s)
| reordered_arr l l' :
    Forall2 reordered l l' -> reordered (JArr l) (JArr l')
| reordered_obj d d' d'' :
    Forall2 (fun kv kv' => fst kv = fst kv' /\ reordered (snd kv) (snd kv')) d d' ->
    d' ≡ₚ d'' ->
    reordered (JObj d) (JObj d'').
Set Elimination Schemes.

(** The items of an object before they are sorted, and the text of an
    object from its items. *)
Definition items_of (e : encoder) (lvl : nat) (d : list (str * json)) : list (str * str) :=
  map (fun kv => (fst kv, encode e (S lvl) (snd kv))) d.

Definition obj_text (e : encoder) (lvl : nat) (items : list (str * str)) : str :=
  "{" ++ newline_indent e (S lvl)
      ++ join (item_separator e ++ newline_indent e (S lvl))
           (map (fun kt => encode_str (ensure_ascii e) (fst kt) ++ key_separator ++ snd kt) items)
      ++ newline_indent e lvl ++ "}".

(** [n] more characters fit on the device. *)
Definition disk_allows (n : nat) (w : world) : Prop :=
  match disk_budget w with
  | None => True
  | Some k => (n <= k)%nat
  end.

(** The coroutine after one resumption. *)
Definition advance (w : world) (i : nat) (c : coroutine) : coroutine := (doAsyncRequest w i c).1.


(** What the probe of task [i] leaves in its slot once it has settled. *)
Definition probe_result (w : world) (i : nat) (method url : str) : outcome :=
  match aio_server w i method url with
  | Failed k => Raised (NetworkError k)
  | Completed r => Returned r (swallow (aiohttp_json r))
  end.

(** How many times the schedule resumes task [i]. *)
Fixpoint turns (i : nat) (sched : list nat) : nat :=
  match sched with
  | [] => 0
  | j :: rest => if decide (j = i) then S (turns i rest) else turns i rest
  end.

(** Every one of [n] tasks is resumed until it is done: a probe is
    resumed three times at most. *)
Definition settles (sched : list nat) (n : nat) : Prop :=
  forall i, (i < n)%nat -> (3 <= turns i sched)%nat.

(** The template of a site definition: an object whose [uri_check] is a
    string. *)
Definition site_template (site : json) : option str :=
  match site with
  | JObj d =>
      match dict_get "uri_check" d with
      | Some (JStr t) => Some t
      | _ => None
      end
  | _ => None
  end.

(** The templates of a catalog, in the order of its [sites] sequence. *)
Definition catalog_templates (data : json) : option (list str) :=
  match data with
  | JObj d =>
      match dict_get "sites" d with
      | Some (JArr sites) => mapM site_template sites
      | _ => None
      end
  | _ => None
  end.

(** The world where the probes chosen by [fails] fail in the network. *)
Definition with_failures (fails : nat -> option net_failure) (w : world) : world :=
  {| files := files w; disk_budget := disk_budget w; server := server w; served := served w;
     aio_server := fun i method url =>
       match fails i with
       | Some k => Failed k
       | None => aio_server w i method url
       end;
     console := console w |}.

(** No brace in the text. *)
Definition brace_free (s : str) : bool :=
  forallb (fun c => negb ((ord c =? 123) || (ord c =? 125))%N) s.

(** What every coroutine prints when it is first resumed. *)
Definition sending : str := "Sending request...".

(** 1 when the coroutine has been resumed at least once. *)
Definition started (c : coroutine) : nat :=
  match c with
  | Created _ _ => 0
  | _ => 1
  end.

(** One step of the loop of [add_platform] over the categories. *)
Definition enlist (name : str) (cs : gmap str (list str)) (category : str)
  : gmap str (list str) :=
  match cs !! category with
  | Some members =>
      if decide (name ∈ members) then cs else <[category := members ++ [name]]> cs
  | None => <[category := [name]]> cs
  end.

Definition listed (name : str) (cs : gmap str (list str)) (category : str) : Prop :=
  exists members, cs !! category = Some members /\ name ∈ members.

(** The text before the first brace of a template and the text after the
    [{}] that starts there. *)
Fixpoint split_field (t : str) : option (str * str) :=
  match t with
  | [] => None
  | c :: rest =>
      if (ord c =? 123)%N then
        match rest with
        | c' :: post => if (ord c' =? 125)%N then Some ([], post) else None
        | [] => None
        end
      else if (ord c =? 125)%N then None
      else prod_map (cons c) id <$> split_field rest
  end.

(** A template with one [{}] field and no other brace. *)
Definition one_field (t : str) : bool :=
  match split_field t with
  | Some (_, post) => brace_free post
  | None => false
  end.

(** ** Scenarios *)

(** A configuration, a catalog as text and as a value, and worlds around
    them. *)
Definition cfg0 : config :=
  {| listURL := "https://example.org/wmn-data.json";
     listFileName := "wmn-data.json";
     proxy := None |}.

Definition catalog_text : str :=
  q "{'sites': [{'name': 'Example', 'uri_check': 'https://example.com/{account}'}], 'license': 'CC'}".

Definition catalog0 : json :=
  JObj [(lit "sites",
         JArr [JObj [(lit "name", JStr "Example");
                     (lit "uri_check", JStr "https://example.com/{account}")]]);
        (lit "license", JStr "CC")].

(** An exchange that completes with a JSON content type. *)
Definition respond (code : Z) (text : str) : exchange :=
  Completed {| status := code; json_content_type := true; body := text |}.

(** A world with the local catalog [local], if any, and a server that
    answers every synchronous request with [remote]. *)
Definition world0 (local : option str) (budget : option nat) (remote : exchange) : world :=
  {| files := match local with Some text => {[ listFileName cfg0 := text ]} | None => ∅ end;
     disk_budget := budget;
     server := fun _ _ _ => remote;
     served := 0;
     aio_server := fun _ _ _ => Failed TimedOut;
     console := [] |}.

Definition stale_text : str := q "{'sites': []}".

Definition html_page : str := "<html><body>Not Found</body></html>".

Definition two_sites_text : str :=
  q "{'sites': [{'name': 'Example', 'uri_check': 'https://example.com/{account}'}, {'name': 'Other', 'uri_check': 'https://other.net/u/{account}/'}]}".

Definition two_sites : json :=
  JObj [(lit "sites",
         JArr [JObj [(lit "name", JStr "Example");
                     (lit "uri_check", JStr "https://example.com/{account}")];
               JObj [(lit "name", JStr "Other");
                     (lit "uri_check", JStr "https://other.net/u/{account}/")]])].

Definition two_templates : list str :=
  [lit "https://example.com/{account}"; lit "https://other.net/u/{account}/"].

Definition found_response : response :=
  {| status := 200; json_content_type := true; body := q "{'found':true}" |}.

(** A world with the local catalog [local], where the probe of task [i]
    gets [net i]. *)
Definition probing_world (local : str) (net : nat -> exchange) : world :=
  {| files := {[ listFileName cfg0 := local ]};
     disk_budget := None;
     server := fun _ _ _ => Failed TimedOut;
     served := 0;
     aio_server := fun i _ _ => net i;
     console := [] |}.

(** [catalog0] with the keys of both objects in the other order. *)
Definition catalog0_reordered : json :=
  JObj [(lit "license", JStr "CC");
        (lit "sites", JArr [JObj [(lit "uri_check", JStr "https://example.com/{account}");
                                  (lit "name", JStr "Example")]])].

(** A manager with one platform listed twice in a category, as a
    configuration file can have it. *)
Definition listed_twice : PlatformURLManager :=
  {| platforms := {[ lit "Example" := lit "https://example.com/{}" ]};
     categories := {[ lit "misc" := [lit "Example"; lit "Other"; lit "Example"] ]} |}.

(** A server whose catalog changes between two requests. *)
Definition moving_world : world :=
  {| files := {[ listFileName cfg0 := stale_text ]};
     disk_budget := None;
     server := fun n _ _ =>
                 match n with
                 | O => respond 200 catalog_text
                 | S _ => respond 200 two_sites_text
                 end;
     served := 0;
     aio_server := fun _ _ _ => Failed TimedOut;
     console := [] |}.

(** A catalog whose second site has no [uri_check]. *)
Definition broken_text : str :=
  q "{'sites': [{'uri_check': 'https://example.com/{account}'}, {'name': 'Broken'}]}".

Definition broken_items : list (str * json) :=
  [(lit "sites",
    JArr ([JObj [(lit "uri_check", JStr "https://example.com/{account}")]]
            ++ JObj [(lit "name", JStr "Broken")] :: []))].

(** What [print] writes for a result, by its kind. *)
Definition render0 (o : outcome) : str :=
  match o with
  | Returned _ _ => "(<ClientResponse>, ...)"
  | Raised _ => "ClientConnectorError(...)"
  end.

(** ** The models on examples *)

(** The test suite of RFC 1321. *)
Example md5_test_suite :
  MD5.hexdigest (encode_utf8 "") = lit "d41d8cd98f00b204e9800998ecf8427e"
  /\ MD5.hexdigest (encode_utf8 "a") = lit "0cc175b9c0f1b6a831c399e269772661"
  /\ MD5.hexdigest (encode_utf8 "abc") = lit "900150983cd24fb0d6963f7d28e17f72"
  /\ MD5.hexdigest (encode_utf8 "message digest") = lit "f96b697d7cb7938d525a2f31aaf161d0"
  /\ MD5.hexdigest (encode_utf8 "abcdefghijklmnopqrstuvwxyz")
     = lit "c3fcd3d76192e4007dfb496cca67e13b"
  /\ MD5.hexdigest
       (encode_utf8 "ABCDEFGHIJKLMNOPQRSTUVWXYZabcdefghijklmnopqrstuvwxyz0123456789")
     = lit "d174ab98d277d9f5a5611c2c9f419d9f"
  /\ MD5.hexdigest
       (encode_utf8
          "12345678901234567890123456789012345678901234567890123456789012345678901234567890")
     = lit "57edf4a22be3c955ac49da2e2107b67a".
Proof. vm_compute. repeat split. Qed.

(** [json.dumps] with sorted keys and [json.dump] with an indent of four. *)
Example json_dumps_examples :
  json_dumps hash_encoder catalog0
  = q "{'license': 'CC', 'sites': [{'name': 'Example', 'uri_check': 'https://example.com/{account}'}]}"
  /\ json_dumps dump_encoder (JObj [(lit "sites", JArr [JInt (-15); JArr []]); (lit "ok", JBool true)])
     = q "{" ++ [newline] ++ q "    'sites': [" ++ [newline]
         ++ q "        -15," ++ [newline]
         ++ q "        []" ++ [newline]
         ++ q "    ]," ++ [newline]
         ++ q "    'ok': true" ++ [newline] ++ q "}"
  /\ json_dumps hash_encoder (JStr [chr 233; newline; chr 1; chr 127; dquote])
     = [dquote] ++ lit "\u00e9\n\u0001\u007f\" ++ [dquote; dquote]
  /\ json_dumps dump_encoder (JStr [chr 233; newline; chr 1; chr 127; dquote])
     = [dquote; chr 233] ++ lit "\n\u0001" ++ [chr 127] ++ lit "\" ++ [dquote; dquote]
  /\ hashJSON JNull = lit "37a6259cc0c1dae299a7866489dff0bd".
Proof. vm_compute. repeat split. Qed.

(** [response.json()]: aiohttp strips the body, form feeds included, and
    answers [None] for a blank one; requests decodes the body as it is;
    aiohttp alone looks at the content type. *)
Example response_json_examples :
  aiohttp_json {| status := 200; json_content_type := true;
                  body := [chr 12] ++ "[1]" ++ [chr 12; chr 11] |}
  = Some (JArr [JInt 1])
  /\ requests_json {| status := 200; json_content_type := true;
                      body := [chr 12] ++ "[1]" ++ [chr 12; chr 11] |}
     = None
  /\ aiohttp_json {| status := 200; json_content_type := true; body := [newline; chr 32] |}
     = Some JNull
  /\ requests_json {| status := 200; json_content_type := true; body := [newline; chr 32] |}
     = None
  /\ aiohttp_json {| status := 200; json_content_type := false; body := "[1]" |} = None
  /\ requests_json {| status := 200; json_content_type := false; body := "[1]" |}
     = Some (JArr [JInt 1])
  /\ bytes_strip ([chr 9; chr 10; chr 11; chr 12; chr 13; chr 32; chr 28]
                    ++ "a b" ++ [chr 160; chr 133; chr 32])
     = [chr 28] ++ "a b" ++ [chr 160; chr 133].
Proof. vm_compute. repeat split. Qed.

(** [json.loads]: white space, escapes, a repeated key; and texts it
    rejects. *)
Example json_loads_examples :
  json_loads catalog_text = Some catalog0
  /\ json_loads (q " [1, -0 , {'a' : [ ] , 'b': null, 'a': true}, '\u0041\/' ] ")
     = Some (JArr [JInt 1; JInt 0;
                   JObj [(lit "a", JBool true); (lit "b", JNull)];
                   JStr "A/"])
  /\ json_loads html_page = None
  /\ json_loads "" = None
  /\ json_loads "[1,]" = None
  /\ json_loads "01" = None
  /\ json_loads "{} {}" = None.
Proof. vm_compute. repeat split. Qed.

(** [str.replace] and [str.format]. *)
Example str_examples :
  str_replace "{account}" "alice" "https://example.com/{account}" = lit "https://example.com/alice"
  /\ str_replace "{account}" "bob" "{account}.example.com/{account}" = lit "bob.example.com/bob"
  /\ str_replace "aa" "b" "aaa" = lit "ba"
  /\ str_replace "" "-" "abc" = lit "-a-b-c-"
  /\ str_format "https://{}.tumblr.com" "alice" = Some (Ok (lit "https://alice.tumblr.com"))
  /\ str_format "{0}/{0}" "alice" = Some (Ok (lit "alice/alice"))
  /\ str_format "{{}}" "alice" = Some (Ok (lit "{}"))
  /\ str_format "{}{}" "alice" = Some (Raise IndexError)
  /\ str_format "{name}" "alice" = Some (Raise (KeyError "name"))
  /\ str_format "{" "alice" = Some (Raise ValueError)
  /\ str_format "{:>5}" "alice" = None.
Proof. vm_compute. repeat split. Qed.

(** * Properties *)

(** ** String replacement *)

Lemma is_prefix_app p s : is_prefix p (p ++ s) = true.
Proof. induction p as [|a p IH]; simpl; [done|]. by rewrite Ascii.eqb_refl. Qed.

(** Dropping the rest of a matched occurrence is dropping it at once. *)
Lemma replace_from_skip old new k s :
  replace_from old new k s = replace_from old new 0 (drop k s).
Proof.
  revert k. induction s as [|c s IH]; intros [|k]; simpl; done.
Qed.

(** No occurrence of the placeholder straddles the end of a text free of it. *)
Lemma placeholder_not_straddling pre post :
  pre <> [] -> is_prefix placeholder pre = false ->
  is_prefix placeholder (pre ++ placeholder ++ post) = false.
Proof.
  intros Hne Hp.
  do 9 (destruct pre as [|? pre]; [ first [done | cbn in *;
    repeat match goal with |- context [Ascii.eqb ?a ?b] => destruct (Ascii.eqb a b) end; done ] |]).
  cbn in *. exact Hp.
Qed.

Lemma contains_cons p c s :
  contains p (c :: s) = false -> is_prefix p (c :: s) = false /\ contains p s = false.
Proof. simpl. intros H. apply orb_false_iff in H. destruct H; split; [done|]. done. Qed.

(** At an occurrence, the replacement is written and the scan goes on after
    the occurrence. *)
Lemma replace_from_hit old new s :
  old <> [] -> replace_from old new 0 (old ++ s) = new ++ replace_from old new 0 s.
Proof.
  destruct old as [|a o]; [done|]. intros _.
  change ((a :: o) ++ s) with (a :: (o ++ s)). cbn [replace_from].
  change (a :: (o ++ s)) with ((a :: o) ++ s). rewrite is_prefix_app.
  rewrite replace_from_skip. cbn [length Nat.pred]. by rewrite drop_app_length.
Qed.

Lemma replace_from_miss old new c s :
  is_prefix old (c :: s) = false ->
  replace_from old new 0 (c :: s) = c :: replace_from old new 0 s.
Proof. intros H. cbn [replace_from]. by rewrite H. Qed.

Lemma str_replace_placeholder new s :
  str_replace placeholder new s = replace_from placeholder new 0 s.
Proof. reflexivity. Qed.

(** The first occurrence of the placeholder is replaced and the text before
    it is kept. *)
Lemma replace_first (new pre post : str) :
  contains placeholder pre = false ->
  str_replace placeholder new (pre ++ placeholder ++ post)
  = pre ++ new ++ str_replace placeholder new post.
Proof.
  rewrite !str_replace_placeholder.
  induction pre as [|c pre IH]; intros Hc.
  - cbn [app]. by apply replace_from_hit.
  - apply contains_cons in Hc as [Hp Hc].
    change ((c :: pre) ++ placeholder ++ post) with (c :: (pre ++ placeholder ++ post)).
    rewrite replace_from_miss.
    + cbn [app]. f_equal. by apply IH.
    + by apply (placeholder_not_straddling (c :: pre)).
Qed.

(** A text without the placeholder is left as it is. *)
Lemma replace_absent (new s : str) :
  contains placeholder s = false -> str_replace placeholder new s = s.
Proof.
  rewrite str_replace_placeholder.
  induction s as [|c s IH]; intros Hc; [done|].
  apply contains_cons in Hc as [Hp Hc]. rewrite replace_from_miss by done. f_equal. by apply IH.
Qed.

(** ** Decoding what the encoder writes *)

(** The decoder reads the escape of a character as that character, for each
    of the 256 characters and both settings of [ensure_ascii]. *)
Lemma scan_string_escape ea c rest :
  scan_string (escape_char ea c ++ rest) = cons_fst c (scan_string rest).
Proof.
  destruct c as [[] [] [] [] [] [] [] []]; destruct ea; reflexivity.
Qed.

(** The body of an encoded string is read back up to its closing quote. *)
Lemma scan_string_encoded ea s rest :
  scan_string (flat_map (escape_char ea) s ++ dquote :: rest) = Some (s, rest).
Proof.
  induction s as [|c s IH]; [done|].
  cbn [flat_map]. rewrite <- app_assoc, scan_string_escape, IH. done.
Qed.

Lemma encode_str_app ea s rest :
  encode_str ea s ++ rest = dquote :: flat_map (escape_char ea) s ++ dquote :: rest.
Proof. unfold encode_str. cbn [app]. by rewrite <- app_assoc. Qed.

Lemma delimiter_cases c :
  delimiter c = true -> is_digit c = false /\ (ord c =? 46)%N = false
     /\ ((ord c =? 101) || (ord c =? 69))%N = false.
Proof.
  unfold delimiter. intros H.
  repeat (apply orb_true_iff in H as [H|H]); apply N.eqb_eq in H;
    unfold is_digit, digit_of; rewrite H; done.
Qed.

(** The digits of a decimal number are read back as that number when a
    delimiter follows. *)
Lemma scan_digits_uint d rest :
  delimited rest -> scan_digits (uint_chars d ++ rest) = (d, rest).
Proof.
  intros Hr. induction d; cbn [uint_chars app scan_digits];
    try (change (digit_of _) with (Some D0) || change (digit_of _) with (Some D1)
      || change (digit_of _) with (Some D2) || change (digit_of _) with (Some D3)
      || change (digit_of _) with (Some D4) || change (digit_of _) with (Some D5)
      || change (digit_of _) with (Some D6) || change (digit_of _) with (Some D7)
      || change (digit_of _) with (Some D8) || change (digit_of _) with (Some D9));
    try (cbn match; rewrite IHd; done).
  destruct rest as [|c r]; [done|]. cbn [scan_digits].
  apply delimiter_cases in Hr as [Hd _]. unfold is_digit in Hd.
  destruct (digit_of c); done.
Qed.

(** The decimal writing of a positive number is not empty and has no leading
    zero. *)
Lemma to_uint_head p :
  match Pos.to_uint p with Nil | D0 _ => False | _ => True end.
Proof.
  assert (Hn : unorm (Pos.to_uint p) = Pos.to_uint p).
  { rewrite <- DecimalPos.Unsigned.to_of, DecimalPos.Unsigned.of_to. done. }
  pose proof (DecimalPos.Unsigned.to_uint_nonnil p) as Hnil.
  pose proof (DecimalPos.Unsigned.to_uint_nonzero p) as Hz.
  destruct (Pos.to_uint p) as [|d| | | | | | | | |]; try done.
  rewrite unorm_D0 in Hn.
  assert (Hd : d <> Nil) by (intros ->; done).
  pose proof (nb_digits_unorm d Hd) as Hlen.
  rewrite Hn in Hlen. cbn in Hlen. lia.
Qed.

Lemma scan_integer_uint p rest :
  delimited rest ->
  scan_integer (uint_chars (Pos.to_uint p) ++ rest) = Some (Pos.to_uint p, rest).
Proof.
  intros Hr. pose proof (to_uint_head p) as Hh.
  pose proof (scan_digits_uint (Pos.to_uint p) rest Hr) as Hs.
  destruct (Pos.to_uint p); try done;
    cbn [uint_chars app] in *; unfold scan_integer;
    (change (ord _ =? 48)%N with false); (change (is_digit _) with true); cbn match;
    by rewrite Hs.
Qed.

Lemma no_fraction rest :
  delimited rest -> has_frac rest || has_exp rest = false.
Proof.
  destruct rest as [|c [|c' r]]; try done; intros H; apply delimiter_cases in H as (_ & H1 & H2);
  unfold has_frac, has_exp; by rewrite H1, H2.
Qed.

(** [NUMBER_RE] matches all of the text of an integer, and nothing makes it
    a float when a delimiter follows. *)
Lemma scan_number_int z rest :
  delimited rest -> scan_number (int_repr z ++ rest) = Some (JInt z, rest).
Proof.
  intros Hr. unfold int_repr.
  destruct z as [|p|p]; cbn [Z.to_int].
  - destruct rest as [|c r].
    + reflexivity.
    + unfold scan_number. cbn [uint_chars app]. change (ord "0" =? 45)%N with false.
      cbn match. unfold scan_integer. change (ord "0" =? 48)%N with true. cbn match.
      by rewrite no_fraction.
  - unfold scan_number.
    assert (Hc : exists c t, uint_chars (Pos.to_uint p) = c :: t /\ (ord c =? 45)%N = false).
    { pose proof (to_uint_head p). destruct (Pos.to_uint p); try done; cbn; eauto. }
    destruct Hc as (c & t & Hc & Hm). pose proof (scan_integer_uint p rest Hr) as Hs.
    rewrite Hc in *. cbn [app] in *. rewrite Hm. rewrite Hs, no_fraction by done.
    do 2 f_equal. f_equal. apply (DecimalZ.of_to (Z.pos p)).
  - unfold scan_number. cbn [app]. change (ord "-" =? 45)%N with true. cbn match.
    rewrite scan_integer_uint, no_fraction by done.
    do 2 f_equal. f_equal. apply (DecimalZ.of_to (Z.neg p)).
Qed.

Lemma int_repr_head z :
  exists c t, int_repr z = c :: t /\ (is_digit c = true \/ ord c = 45%N).
Proof.
  unfold int_repr. destruct z as [|p|p]; cbn [Z.to_int].
  - exists "0"%char, []. split; [done|by left].
  - pose proof (to_uint_head p). destruct (Pos.to_uint p); try done; cbn [uint_chars];
      eexists _, _; (split; [reflexivity|by left]).
  - eexists _, _. split; [reflexivity|by right].
Qed.

(** The first character of an integer sends [scan_once] to the number
    scanner. *)
Lemma scan_once_int n z rest :
  delimited rest -> scan_once (S n) (int_repr z ++ rest) = Some (JInt z, rest).
Proof.
  intros Hr. rewrite <- (scan_number_int z rest Hr).
  destruct (int_repr_head z) as (c & t & E & Hc). rewrite E. cbn [app].
  cbn [scan_once].
  assert (H : (ord c =? 34)%N = false /\ (ord c =? 123)%N = false /\ (ord c =? 91)%N = false
     /\ is_prefix "null" (c :: t ++ rest) = false /\ is_prefix "true" (c :: t ++ rest) = false
     /\ is_prefix "false" (c :: t ++ rest) = false).
  { destruct Hc as [Hc|Hc].
    - unfold is_digit, digit_of in Hc.
      destruct c as [[] [] [] [] [] [] [] []]; try done; cbn; done.
    - apply (f_equal ascii_of_N) in Hc. unfold ord in Hc. rewrite ascii_N_embedding in Hc.
      subst c. done. }
  destruct H as (-> & -> & -> & -> & -> & ->). done.
Qed.

Lemma wf_json_arr l : wf_json (JArr l) <-> Forall wf_json l.
Proof.
  cbn. induction l as [|x l IH]; [by split|].
  rewrite Forall_cons. rewrite <- IH. done.
Qed.

Lemma wf_json_obj d :
  wf_json (JObj d) <-> NoDup (map fst d) /\ Forall (fun kv => wf_json (snd kv)) d.
Proof.
  cbn. apply and_iff_compat_l. induction d as [|x l IH]; [by split|].
  rewrite Forall_cons. rewrite <- IH. done.
Qed.

Lemma skip_ws_all ws x : forallb is_ws ws = true -> skip_ws (ws ++ x) = skip_ws x.
Proof.
  induction ws as [|c ws IH]; [done|]. cbn. intros H. apply andb_true_iff in H as [-> H]. auto.
Qed.

Lemma skip_ws_head c x : is_ws c = false -> skip_ws (c :: x) = c :: x.
Proof. intros H. cbn. by rewrite H. Qed.

Lemma newline_indent_ws e lvl : forallb is_ws (newline_indent e lvl) = true.
Proof.
  unfold newline_indent. destruct (indent e) as [k|]; [|done].
  cbn. induction (k * lvl)%nat; [done|]. done.
Qed.

Lemma separator_shape e lvl :
  exists ws, item_separator e ++ newline_indent e lvl = ","%char :: ws /\ forallb is_ws ws = true.
Proof.
  pose proof (newline_indent_ws e lvl) as H. unfold item_separator, newline_indent in *.
  destruct (indent e) as [k|]; eexists; (split; [reflexivity|done]).
Qed.

(** The text of a value does not start with white space, nor with a closing
    bracket. *)
Lemma encode_head e lvl v :
  exists c t, encode e lvl v = c :: t /\ is_ws c = false /\ (ord c =? 93)%N = false.
Proof.
  destruct v as [|[]|z|s|[|x l]|[|kv d]]; try (eexists _, _; cbn; split; [reflexivity|done]).
  destruct (int_repr_head z) as (c & t & E & Hc). exists c, t. split; [done|].
  destruct Hc as [Hc|Hc].
  - unfold is_digit, digit_of in Hc. destruct c as [[] [] [] [] [] [] [] []]; done.
  - apply (f_equal ascii_of_N) in Hc. unfold ord in Hc. rewrite ascii_N_embedding in Hc.
    by subst c.
Qed.

Lemma delimited_tail e lvl (c : ascii) rest :
  delimiter c = true -> delimited (newline_indent e lvl ++ c :: rest).
Proof. unfold newline_indent. by destruct (indent e). Qed.

Lemma skip_ws_tail e lvl (c : ascii) rest :
  is_ws c = false -> skip_ws (newline_indent e lvl ++ c :: rest) = c :: rest.
Proof.
  intros H. rewrite skip_ws_all by apply newline_indent_ws. by apply skip_ws_head.
Qed.

Section roundtrip.
Variable e : encoder.
Hypothesis Hsort : sort_keys e = false.

(** The items of an array, as the encoder separates them, are read back in
    their order. *)
Lemma array_items_encoded lvl l :
  l <> [] -> Forall (decodes e) l ->
  forall n rest, (list_sum (map (fun x => S (need x)) l) <= n)%nat ->
    array_items n (join (item_separator e ++ newline_indent e (S lvl)) (map (encode e (S lvl)) l)
                     ++ newline_indent e lvl ++ "]"%char :: rest) = Some (l, rest).
Proof.
  intros Hne Hall. induction Hall as [|x l Hx Hall IH]; [done|]. clear Hne.
  intros n rest Hn. cbn [map list_sum foldr] in Hn.
  destruct n as [|n]; [lia|]. cbn [array_items].
  destruct l as [|y l].
  - cbn [map join]. rewrite Hx; [|lia|by apply delimited_tail].
    rewrite skip_ws_tail by done. done.
  - cbn [map join]. destruct (separator_shape e (S lvl)) as (ws & Es & Hws).
    rewrite Es. rewrite <- !app_assoc. rewrite Hx; [|cbn in *; lia|done].
    cbn [app]. rewrite skip_ws_head by done. change (ord ","%char =? 93)%N with false.
    change (ord ","%char =? 44)%N with true. cbn match.
    rewrite skip_ws_all by done.
    assert (Hsk : forall t, skip_ws (join (","%char :: ws) (encode e (S lvl) y :: map (encode e (S lvl)) l) ++ t)
                  = join (","%char :: ws) (encode e (S lvl) y :: map (encode e (S lvl)) l) ++ t).
    { intros t. destruct (encode_head e (S lvl) y) as (c & u & E & Hc & _).
      destruct (map (encode e (S lvl)) l); cbn [join]; rewrite E; cbn [app]; by apply skip_ws_head. }
    rewrite Hsk. rewrite <- Es. cbn [map] in IH. rewrite IH; [done|done|]. cbn [map list_sum foldr] in *. lia.
Qed.

Lemma skip_ws_encode lvl v t ws :
  forallb is_ws ws = true -> skip_ws (ws ++ encode e lvl v ++ t) = encode e lvl v ++ t.
Proof.
  intros Hws. rewrite skip_ws_all by done.
  destruct (encode_head e lvl v) as (c & u & E & Hc & _). rewrite E. by apply skip_ws_head.
Qed.

Lemma skip_ws_space lvl v t :
  skip_ws (" "%char :: encode e lvl v ++ t) = encode e lvl v ++ t.
Proof. by apply (skip_ws_encode lvl v t [" "%char]). Qed.

(** The items of an object, as the encoder writes them, are read back in
    their order. *)
Lemma object_items_encoded lvl d :
  d <> [] -> Forall (fun kv => decodes e (snd kv)) d ->
  forall n rest, (list_sum (map (fun kv => S (need (snd kv))) d) <= n)%nat ->
    object_items n (join (item_separator e ++ newline_indent e (S lvl)) (map (item_text e lvl) d)
                      ++ newline_indent e lvl ++ "}"%char :: rest) = Some (d, rest).
Proof.
  intros Hne Hall. induction Hall as [|[k x] d Hx Hall IH]; [done|]. clear Hne.
  intros n rest Hn. cbn [map list_sum foldr snd] in Hn.
  destruct n as [|n]; [lia|]. cbn [object_items]. cbn [snd] in Hx.
  assert (Hitem : forall t, item_text e lvl (k, x) ++ t
            = dquote :: flat_map (escape_char (ensure_ascii e)) k
                ++ dquote :: ":"%char :: " "%char :: encode e (S lvl) x ++ t).
  { intros t. unfold item_text. cbn [fst snd]. rewrite <- app_assoc, encode_str_app.
    by rewrite <- app_assoc. }
  destruct d as [|y d].
  - cbn [map join]. rewrite Hitem. change (ord dquote =? 34)%N with true. cbn match.
    rewrite scan_string_encoded. rewrite skip_ws_head by done.
    change (ord ":"%char =? 58)%N with true. cbn match.
    rewrite skip_ws_space.
    rewrite Hx; [|lia|by apply delimited_tail].
    rewrite skip_ws_tail by done. done.
  - cbn [map join]. destruct (separator_shape e (S lvl)) as (ws & Es & Hws).
    rewrite Es. rewrite <- !app_assoc. rewrite Hitem.
    change (ord dquote =? 34)%N with true. cbn match.
    rewrite scan_string_encoded. rewrite skip_ws_head by done.
    change (ord ":"%char =? 58)%N with true. cbn match.
    rewrite skip_ws_space.
    rewrite Hx; [|cbn in *; lia|done].
    cbn [app]. rewrite skip_ws_head by done. change (ord ","%char =? 125)%N with false.
    change (ord ","%char =? 44)%N with true. cbn match.
    rewrite skip_ws_all by done.
    assert (Hsk : forall t, skip_ws (join (","%char :: ws) (item_text e lvl y :: map (item_text e lvl) d) ++ t)
                  = join (","%char :: ws) (item_text e lvl y :: map (item_text e lvl) d) ++ t).
    { intros t. destruct (map (item_text e lvl) d); cbn [join]; by apply skip_ws_head. }
    rewrite Hsk. rewrite <- Es. cbn [map] in IH. rewrite IH; [done|done|].
    cbn [map list_sum foldr] in *. lia.
Qed.

Lemma dict_set_fresh k v d :
  k ∉ map fst d -> dict_set k v d = d ++ [(k, v)].
Proof.
  induction d as [|[k' v'] d IH]; [done|]. cbn. intros H.
  apply not_elem_of_cons in H as [Hk H]. rewrite decide_False by done. by rewrite IH.
Qed.

Lemma dict_of_pairs_nodup_from acc d :
  NoDup (map fst (acc ++ d)) ->
  fold_left (fun d kv => dict_set (fst kv) (snd kv) d) d acc = acc ++ d.
Proof.
  revert acc. induction d as [|[k v] d IH]; intros acc Hnd; cbn.
  - by rewrite app_nil_r.
  - rewrite dict_set_fresh.
    + rewrite IH; rewrite <- app_assoc; done.
    + rewrite map_app in Hnd. apply NoDup_app in Hnd as (_ & Hd & _).
      intros Hin. apply (Hd k Hin). cbn. left.
Qed.

(** [dict(pairs)] is [pairs] itself when the keys are distinct. *)
Lemma dict_of_pairs_nodup d : NoDup (map fst d) -> dict_of_pairs d = d.
Proof. intros H. by apply (dict_of_pairs_nodup_from [] d). Qed.

Lemma encode_arr lvl x l :
  encode e lvl (JArr (x :: l)) =
  "["%char :: newline_indent e (S lvl)
    ++ join (item_separator e ++ newline_indent e (S lvl)) (map (encode e (S lvl)) (x :: l))
    ++ newline_indent e lvl ++ ["]"%char].
Proof. reflexivity. Qed.

Lemma encode_obj lvl x d :
  encode e lvl (JObj (x :: d)) =
  "{"%char :: newline_indent e (S lvl)
    ++ join (item_separator e ++ newline_indent e (S lvl)) (map (item_text e lvl) (x :: d))
    ++ newline_indent e lvl ++ ["}"%char].
Proof.
  cbn [encode]. unfold sort_items. rewrite Hsort. by rewrite map_map.
Qed.

(** Every well-formed value is read back from its text, at any indentation
    level and whatever delimiter follows. *)
Lemma scan_once_encode v : wf_json v -> decodes e v.
Proof.
  induction v as [|b|z|s|l IH|d IH] using json_ind; intros Hwf n lvl rest Hn Hr;
    cbn [need] in Hn; (destruct n as [|n]; [lia|]).
  - done.
  - by destruct b.
  - by apply scan_once_int.
  - cbn [encode]. rewrite encode_str_app. cbn [scan_once].
    change (ord dquote =? 34)%N with true. cbn match. by rewrite scan_string_encoded.
  - destruct l as [|x l]; [done|].
    apply wf_json_arr in Hwf.
    assert (Hdec : Forall (decodes e) (x :: l)).
    { clear -IH Hwf. induction IH; inversion Hwf; subst; constructor; auto. }
    pose proof (array_items_encoded lvl (x :: l) ltac:(done) Hdec n rest ltac:(lia)) as Hitems.
    rewrite encode_arr. cbn [app]. rewrite <- !app_assoc. cbn [app scan_once].
    change (ord "["%char =? 34)%N with false. change (ord "["%char =? 123)%N with false.
    change (ord "["%char =? 91)%N with true. cbn match.
    rewrite skip_ws_all by apply newline_indent_ws.
    destruct (encode_head e (S lvl) x) as (c & u & E & Hc & Hc').
    assert (Hshape : exists t, join (item_separator e ++ newline_indent e (S lvl))
                 (map (encode e (S lvl)) (x :: l))
               ++ newline_indent e lvl ++ "]"%char :: rest = c :: t).
    { cbn [map]. destruct (map (encode e (S lvl)) l); cbn [join]; rewrite E; cbn [app]; eauto. }
    destruct Hshape as (t & Et). rewrite Et in *. rewrite skip_ws_head by done.
    rewrite Hc'. by rewrite Hitems.
  - destruct d as [|x d]; [done|].
    apply wf_json_obj in Hwf as [Hnd Hwf].
    assert (Hdec : Forall (fun kv => decodes e (snd kv)) (x :: d)).
    { clear -IH Hwf. induction IH; inversion Hwf; subst; constructor; auto. }
    pose proof (object_items_encoded lvl (x :: d) ltac:(done) Hdec n rest ltac:(lia)) as Hitems.
    rewrite encode_obj. cbn [app]. rewrite <- !app_assoc. cbn [app scan_once].
    change (ord "{"%char =? 34)%N with false. change (ord "{"%char =? 123)%N with true.
    cbn match.
    rewrite skip_ws_all by apply newline_indent_ws.
    assert (Hshape : exists t, join (item_separator e ++ newline_indent e (S lvl))
                 (map (item_text e lvl) (x :: d))
               ++ newline_indent e lvl ++ "}"%char :: rest = dquote :: t).
    { cbn [map]. destruct (map (item_text e lvl) d); cbn [join]; eauto. }
    destruct Hshape as (t & Et). rewrite Et in *. rewrite skip_ws_head by done.
    change (ord dquote =? 125)%N with false. cbn match. rewrite Hitems.
    by rewrite dict_of_pairs_nodup.
Qed.

Lemma join_length sep (xs : list str) :
  (list_sum (map length xs) <= length (join sep xs))%nat.
Proof.
  induction xs as [|x [|y xs] IH]; cbn [join map list_sum foldr] in *; [lia|lia|].
  rewrite !length_app. lia.
Qed.

Lemma need_sum_bound {A : Type} (nd : A -> nat) (f : A -> str) (l : list A) :
  Forall (fun x => (S (nd x) <= 2 * length (f x))%nat) l ->
  (list_sum (map (fun x => S (nd x)) l) <= 2 * list_sum (map length (map f l)))%nat.
Proof. induction 1; unfold list_sum in *; cbn [map foldr] in *; lia. Qed.

(** The depth [json_loads] allows is enough for the text of any value. *)
Lemma need_bound v lvl : (S (need v) <= 2 * length (encode e lvl v))%nat.
Proof.
  revert lvl. induction v as [|b|z|s|l IH|d IH] using json_ind; intros lvl.
  - cbn. lia.
  - destruct b; cbn; lia.
  - destruct (int_repr_head z) as (c & t & E & _). cbn [encode need]. rewrite E. cbn. lia.
  - cbn [encode need]. unfold encode_str. cbn [length]. rewrite length_app. cbn. lia.
  - destruct l as [|x l]; [cbn; lia|].
    rewrite encode_arr. cbn [need length]. rewrite !length_app.
    pose proof (join_length (item_separator e ++ newline_indent e (S lvl))
                  (map (encode e (S lvl)) (x :: l))) as Hj.
    assert (Hs := need_sum_bound need (encode e (S lvl)) (x :: l)).
    cbn [length]. unfold list_sum in *.
    cut (Forall (fun y => (S (need y) <= 2 * length (encode e (S lvl) y))%nat) (x :: l)).
    { intros HF. specialize (Hs HF). lia. }
    eapply Forall_impl; [exact IH|]. intros y Hy. apply Hy.
  - destruct d as [|x d]; [cbn; lia|].
    rewrite encode_obj. cbn [need length]. rewrite !length_app.
    pose proof (join_length (item_separator e ++ newline_indent e (S lvl))
                  (map (item_text e lvl) (x :: d))) as Hj.
    assert (Hs := need_sum_bound (fun kv => need (snd kv)) (item_text e lvl) (x :: d)).
    cbn [length]. unfold list_sum in *.
    cut (Forall (fun y => (S (need (snd y)) <= 2 * length (item_text e lvl y))%nat) (x :: d)).
    { intros HF. specialize (Hs HF). lia. }
    eapply Forall_impl; [exact IH|]. intros y Hy. cbn beta in Hy.
    specialize (Hy (S lvl)). unfold item_text. rewrite !length_app. lia.
Qed.

(** [json.loads(json.dumps(v)) == v], for every encoder that does not sort
    the keys. *)
Lemma json_loads_dumps v : wf_json v -> json_loads (json_dumps e v) = Some v.
Proof.
  intros Hwf. unfold json_loads, json_dumps.
  destruct (encode_head e 0 v) as (c & t & E & Hc & _).
  rewrite E at 2. rewrite skip_ws_head by done. rewrite <- E.
  rewrite <- (app_nil_r (encode e 0 v)) at 2.
  rewrite scan_once_encode; [done|done| |done].
  pose proof (need_bound v 0). lia.
Qed.

End roundtrip.

(** ** What the decoder returns is well formed *)

Lemma dict_set_keys_in x k v d :
  x ∈ map fst (dict_set k v d) -> x = k \/ x ∈ map fst d.
Proof.
  induction d as [|[k' v'] d IH]; cbn.
  - intros H. apply list_elem_of_singleton in H. by left.
  - destruct (decide (k = k')) as [->|Hne]; cbn.
    + intros H. by right.
    + intros H. apply elem_of_cons in H as [->|H]; [right; left|].
      destruct (IH H) as [->|Hin]; [by left|right; by right].
Qed.

Lemma dict_set_nodup k v d :
  NoDup (map fst d) -> NoDup (map fst (dict_set k v d)).
Proof.
  induction d as [|[k' v'] d IH]; cbn; intros Hnd.
  - apply NoDup_singleton.
  - apply NoDup_cons in Hnd as [Hk Hnd].
    destruct (decide (k = k')) as [->|Hne]; cbn.
    + by apply NoDup_cons.
    + apply NoDup_cons. split; [|by apply IH].
      intros Hin. apply dict_set_keys_in in Hin as [->|Hin]; done.
Qed.

Lemma dict_set_values (P : json -> Prop) k v d :
  P v -> Forall (fun kv => P (snd kv)) d -> Forall (fun kv => P (snd kv)) (dict_set k v d).
Proof.
  intros Hv. induction 1 as [|[k' v'] d Hx Hd IH]; cbn.
  - by repeat constructor.
  - destruct (decide (k = k')); constructor; done.
Qed.

Lemma dict_of_pairs_wf pairs :
  Forall (fun kv => wf_json (snd kv)) pairs -> wf_json (JObj (dict_of_pairs pairs)).
Proof.
  intros H. apply wf_json_obj. unfold dict_of_pairs.
  assert (Hacc : NoDup (map fst ([] : list (str * json)))
                 /\ Forall (fun kv => wf_json (snd kv)) ([] : list (str * json))).
  { split; constructor. }
  revert Hacc. generalize ([] : list (str * json)) as acc.
  induction H as [|[k v] pairs Hv Hp IH]; intros acc [Hn Hf]; cbn; [done|].
  apply IH. split; [by apply dict_set_nodup|by apply dict_set_values].
Qed.

Lemma cons_fst_Some {A B} (a : A) (r : option (list A * B)) l b :
  cons_fst a r = Some (l, b) -> exists l', r = Some (l', b) /\ l = a :: l'.
Proof. destruct r as [[l' b']|]; cbn; [|done]. intros [= <- <-]. eauto. Qed.

(** The three scanners return values whose objects have distinct keys. *)
Lemma scan_once_wf n :
  (forall s v r, scan_once n s = Some (v, r) -> wf_json v)
  /\ (forall s l r, array_items n s = Some (l, r) -> Forall wf_json l)
  /\ (forall s d r, object_items n s = Some (d, r) -> Forall (fun kv => wf_json (snd kv)) d).
Proof.
  induction n as [|n (IHv & IHa & IHo)]; [done|]. split; [|split].
  - intros s v r. cbn [scan_once]. destruct s as [|c s]; [done|].
    repeat case_match; intros Hres; simplify_eq; try done.
    + apply wf_json_obj. split; constructor.
    + apply dict_of_pairs_wf. eauto.
    + apply wf_json_arr. eauto.
    + unfold scan_number in *. repeat case_match; simplify_eq; done.
  - intros s l r. cbn [array_items].
    repeat case_match; try done.
    + intros Hres; simplify_eq. repeat constructor. eauto.
    + intros Hres. apply cons_fst_Some in Hres as (l' & Hres & ->). constructor; eauto.
  - intros s d r. cbn [object_items].
    repeat case_match; try done.
    + intros Hres; simplify_eq. repeat constructor. cbn. eauto.
    + intros Hres. apply cons_fst_Some in Hres as (l' & Hres & ->). constructor; cbn; eauto.
Qed.

Lemma json_loads_wf s v : json_loads s = Some v -> wf_json v.
Proof.
  unfold json_loads. repeat case_match; try done. intros [= <-].
  eapply scan_once_wf. eassumption.
Qed.

(** ** The order of the keys *)

Lemma ord_inj a b : ord a = ord b -> a = b.
Proof.
  unfold ord. intros H. apply (f_equal ascii_of_N) in H. by rewrite !ascii_N_embedding in H.
Qed.

(** The order on strings is a strict total order. *)
Lemma str_ltb_cases a b :
  (str_ltb a b = true /\ str_ltb b a = false)
  \/ (a = b /\ str_ltb a b = false)
  \/ (str_ltb b a = true /\ str_ltb a b = false).
Proof.
  revert b. induction a as [|x a IH]; intros [|y b]; cbn; try by auto.
  rewrite (N.compare_antisym (ord x) (ord y)).
  destruct (N.compare_spec (ord x) (ord y)) as [E|L|G]; cbn; try by auto.
  apply ord_inj in E as ->. destruct (IH b) as [?|[[-> ?]|?]]; auto.
Qed.

Lemma str_ltb_trans a b c : str_ltb a b = true -> str_ltb b c = true -> str_ltb a c = true.
Proof.
  revert b c. induction a as [|x a IH]; intros [|y b] [|z c]; cbn; try done.
  destruct (N.compare_spec (ord x) (ord y)) as [E|L|G]; try done;
  destruct (N.compare_spec (ord y) (ord z)) as [E2|L2|G2]; try done; intros H1 H2.
  - rewrite E, E2, N.compare_refl. eauto.
  - rewrite E. apply N.compare_lt_iff in L2. by rewrite L2.
  - rewrite <- E2. apply N.compare_lt_iff in L. by rewrite L.
  - assert (ord x < ord z)%N as Hlt by lia. apply N.compare_lt_iff in Hlt. by rewrite Hlt.
Qed.

Lemma str_le_iff a b : str_le a b <-> str_lt a b \/ a = b.
Proof.
  unfold str_le, str_lt. destruct (str_ltb_cases a b) as [[? ?]|[[-> ?]|[? ?]]]; split; auto.
  - congruence.
  - intros [?| ->]; congruence.
Qed.

#[global] Instance str_le_trans : Transitive str_le.
Proof.
  intros a b c. rewrite !str_le_iff. unfold str_lt.
  intros [H1| ->] [H2| ->]; eauto using str_ltb_trans.
Qed.

#[global] Instance str_le_total : Total str_le.
Proof.
  intros a b. unfold str_le. destruct (str_ltb_cases a b) as [[? ?]|[[-> ?]|[? ?]]]; auto.
Qed.

Lemma str_le_antisym a b : str_le a b -> str_le b a -> a = b.
Proof.
  unfold str_le. destruct (str_ltb_cases a b) as [[? ?]|[[-> ?]|[? ?]]]; congruence.
Qed.

#[global] Instance key_le_trans : Transitive key_le.
Proof. intros x y z. unfold key_le. apply str_le_trans. Qed.

#[global] Instance key_le_total : Total key_le.
Proof. intros x y. unfold key_le. apply str_le_total. Qed.

Lemma nodup_fst_inj {A} (l : list (str * A)) x y :
  NoDup (map fst l) -> x ∈ l -> y ∈ l -> fst x = fst y -> x = y.
Proof.
  induction l as [|z l IH]; cbn; intros Hnd Hx Hy E; [by apply elem_of_nil in Hx|].
  apply NoDup_cons in Hnd as [Hz Hnd].
  apply elem_of_cons in Hx as [->|Hx]; apply elem_of_cons in Hy as [->|Hy]; auto.
  - exfalso. apply Hz. rewrite E. apply list_elem_of_fmap. eauto.
  - exfalso. apply Hz. rewrite <- E. apply list_elem_of_fmap. eauto.
Qed.

(** Sorting the items by key gives the same list for every order of the
    items, the keys being distinct. *)
Lemma merge_sort_perm_eq (l1 l2 : list (str * str)) :
  NoDup (map fst l1) -> l1 ≡ₚ l2 -> merge_sort key_le l1 = merge_sort key_le l2.
Proof.
  intros Hnd Hp.
  apply (StronglySorted_unique_strong key_le).
  - intros x1 x2 H1 H2 L1 L2.
    rewrite merge_sort_Permutation in H1. rewrite merge_sort_Permutation, <- Hp in H2.
    apply (nodup_fst_inj l1); auto. by apply str_le_antisym.
  - apply StronglySorted_merge_sort; apply _.
  - apply StronglySorted_merge_sort; apply _.
  - by rewrite !merge_sort_Permutation.
Qed.

Lemma encode_obj_items e lvl d :
  d <> [] -> encode e lvl (JObj d) = obj_text e lvl (sort_items e (items_of e lvl d)).
Proof. by destruct d. Qed.

Section key_order.
Variable e : encoder.
Hypothesis Hsort : sort_keys e = true.

(** With [sort_keys], the text of a value does not depend on the order of
    the items of its objects. *)
Lemma encode_reordered v :
  wf_json v -> forall v' lvl, reordered v v' -> encode e lvl v = encode e lvl v'.
Proof.
  induction v as [|b|z|s|l IH|d IH] using json_ind; intros Hwf v' lvl Hr;
    inversion Hr as [| | | |? l' HF|? d' d'' HF HP]; subst; try done.
  - apply wf_json_arr in Hwf.
    assert (Hmap : map (encode e (S lvl)) l = map (encode e (S lvl)) l').
    { clear Hr. revert IH Hwf. induction HF as [|x y l l' Hxy _ IHl]; [done|].
      intros IH Hwf. apply Forall_cons in IH as [IHx IH]. apply Forall_cons in Hwf as [Hx Hwf].
      cbn [map]. f_equal; auto. }
    destruct l as [|x l], l' as [|x' l']; try done.
    by rewrite !encode_arr, Hmap.
  - apply wf_json_obj in Hwf as [Hnd Hwf].
    assert (Hmap : items_of e lvl d = items_of e lvl d').
    { clear Hr HP Hnd. revert IH Hwf. induction HF as [|x y l l' [Hk Hxy] _ IHl]; [done|].
      intros IH Hwf. apply Forall_cons in IH as [IHx IH]. apply Forall_cons in Hwf as [Hx Hwf].
      cbn [items_of map]. f_equal; [|by apply IHl]. rewrite Hk. f_equal. auto. }
    assert (Hperm : items_of e lvl d ≡ₚ items_of e lvl d'').
    { rewrite Hmap. unfold items_of. by apply Permutation_map. }
    destruct (decide (d = [])) as [->|Hne].
    + apply Forall2_nil_inv_l in HF as ->. by apply Permutation_nil_l in HP as ->.
    + assert (Hne' : d'' <> []).
      { intros ->. apply Permutation_nil_r in Hperm. by destruct d. }
      rewrite !encode_obj_items by done. unfold sort_items. rewrite Hsort.
      f_equal. apply merge_sort_perm_eq; [|done].
      unfold items_of. rewrite map_map. cbn [fst]. done.
Qed.

End key_order.

(** ** The catalog store and the freshness controller *)

(** Runs the first step of a sequence of the monad. *)
Ltac run_bind := unfold mbind at 1; unfold M_bind at 1.

Lemma doSyncRequest_completed method url w r :
  server w (served w) method url = Completed r ->
  doSyncRequest method url w = (Ok (r, swallow (requests_json r)), tick w).
Proof. intros H. unfold doSyncRequest, mbind, M_bind, requests_request. by rewrite H. Qed.

Lemma doSyncRequest_failed method url w k :
  server w (served w) method url = Failed k ->
  doSyncRequest method url w = (Raise (NetworkError k), tick w).
Proof. intros H. unfold doSyncRequest, mbind, M_bind, requests_request. by rewrite H. Qed.

Lemma readList_file cfg w text data :
  files w !! listFileName cfg = Some text -> json_loads text = Some data ->
  readList cfg w = (Ok data, w).
Proof. intros Hf Hd. unfold readList, mbind, M_bind, read_file. by rewrite Hf, Hd. Qed.

Lemma write_file_ok path text w :
  disk_budget w = None ->
  write_file path text w = (Ok tt, set_file path text None w).
Proof. intros H. unfold write_file. by rewrite H. Qed.

(** [readList] reads what was last written to the catalog file. *)
Lemma readList_written cfg text C budget w :
  json_loads text = Some C ->
  readList cfg (set_file (listFileName cfg) text budget w)
  = (Ok C, set_file (listFileName cfg) text budget w).
Proof.
  intros H. apply readList_file with text; [|done]. cbn. apply lookup_insert_eq.
Qed.

Lemma downloadList_completed cfg w r :
  server w (served w) "GET" (listURL cfg) = Completed r ->
  downloadList cfg w
  = write_file (listFileName cfg) (json_dumps dump_encoder (swallow (requests_json r))) (tick w).
Proof.
  intros H. unfold downloadList, mbind, M_bind. by rewrite (doSyncRequest_completed _ _ _ _ H).
Qed.

Lemma downloadList_failed cfg w k :
  server w (served w) "GET" (listURL cfg) = Failed k ->
  downloadList cfg w = (Raise (NetworkError k), tick w).
Proof.
  intros H. unfold downloadList, mbind, M_bind. by rewrite (doSyncRequest_failed _ _ _ _ H).
Qed.

Lemma isfile_true path w : isfile path w = true <-> is_Some (files w !! path).
Proof. unfold isfile. apply bool_decide_eq_true. Qed.

Lemma isfile_false path w : isfile path w = false <-> files w !! path = None.
Proof. unfold isfile. rewrite bool_decide_eq_false. by rewrite eq_None_not_Some. Qed.

(** [checkUpdates], branch by branch. *)
Lemma checkUpdates_absent cfg w :
  files w !! listFileName cfg = None ->
  checkUpdates cfg w = downloadList cfg (emit [lit "[!] Downloading WhatsMyName list"] w).
Proof.
  intros H. unfold checkUpdates. apply isfile_false in H. rewrite H. done.
Qed.

Lemma checkUpdates_present cfg w text data r :
  files w !! listFileName cfg = Some text -> json_loads text = Some data ->
  server w (served w) "GET" (listURL cfg) = Completed r ->
  checkUpdates cfg w =
    let w1 := tick (emit [lit "[-] Checking for updates..."] w) in
    if decide (hashJSON data <> hashJSON (swallow (requests_json r)))
    then downloadList cfg (emit [lit "[!] Updating..."] w1)
    else (Ok tt, emit [lit "[+] List is up to date"] w1).
Proof.
  intros Hf Hd Hs. unfold checkUpdates.
  assert (Hi : isfile (listFileName cfg) w = true) by (apply isfile_true; eauto).
  rewrite Hi. run_bind. unfold print at 1.
  run_bind.
  rewrite (readList_file cfg _ text data) by done.
  run_bind.
  rewrite (doSyncRequest_completed "GET" (listURL cfg) _ r) by done.
  cbn zeta. destruct (decide _); done.
Qed.

Lemma write_file_allowed path text w :
  disk_allows (length text) w ->
  exists budget, write_file path text w = (Ok tt, set_file path text budget w).
Proof.
  unfold disk_allows, write_file. destruct (disk_budget w) as [k|]; [|eauto].
  intros H. apply Nat.ltb_ge in H. rewrite H. eauto.
Qed.

Lemma swallow_wf s : wf_json (swallow (json_loads s)).
Proof. destruct (json_loads s) eqn:E; [by apply json_loads_wf in E|done]. Qed.

(** A download that completes leaves the remote document in the catalog
    file. *)
Lemma downloadList_then_readList cfg w r :
  server w (served w) "GET" (listURL cfg) = Completed r ->
  disk_allows (length (json_dumps dump_encoder (swallow (requests_json r)))) w ->
  exists w', downloadList cfg w = (Ok tt, w') /\ files w' !! listFileName cfg = Some (json_dumps dump_encoder (swallow (requests_json r)))
     /\ readList cfg w' = (Ok (swallow (requests_json r)), w').
Proof.
  intros Hs Hd. rewrite (downloadList_completed cfg w r Hs).
  destruct (write_file_allowed (listFileName cfg) _ (tick w) Hd) as [b ->].
  eexists. split; [done|]. split; [apply lookup_insert_eq|]. apply readList_written.
  apply json_loads_dumps; [done|apply swallow_wf].
Qed.

(** A fetch that raises leaves [checkUpdates] before anything is written. *)
Lemma checkUpdates_fetch_raises cfg w text L k :
  files w !! listFileName cfg = Some text -> json_loads text = Some L ->
  server w (served w) "GET" (listURL cfg) = Failed k ->
  exists w', checkUpdates cfg w = (Raise (NetworkError k), w') /\ files w' = files w.
Proof.
  intros Hf HL Hs. unfold checkUpdates.
  assert (Hi : isfile (listFileName cfg) w = true) by (apply isfile_true; eauto).
  rewrite Hi. run_bind. unfold print at 1.
  run_bind.
  rewrite (readList_file cfg _ text L) by done.
  run_bind.
  rewrite (doSyncRequest_failed "GET" (listURL cfg) _ k) by done. eauto.
Qed.

(** A remote that answers with a body that is not JSON, twice: the local
    catalog, whatever it is, is replaced by [null]. *)
Lemma checkUpdates_undecodable_overwrites cfg w text L r :
  files w !! listFileName cfg = Some text -> json_loads text = Some L ->
  (forall n, server w n "GET" (listURL cfg) = Completed r) ->
  requests_json r = None ->
  hashJSON L <> hashJSON JNull ->
  disk_budget w = None ->
  exists w', checkUpdates cfg w = (Ok tt, w')
    /\ files w' !! listFileName cfg = Some (lit "null").
Proof.
  intros Hf HL Hs Hr Hh Hd.
  rewrite (checkUpdates_present cfg w text L r Hf HL (Hs _)). rewrite Hr. cbn [swallow]. cbn zeta.
  rewrite decide_True by done.
  match goal with
  | |- context [downloadList cfg ?w1] =>
      rewrite (downloadList_completed cfg w1 r (Hs _)), Hr
  end.
  cbn [swallow]. rewrite write_file_ok by done. eexists. split; [done|]. apply lookup_insert_eq.
Qed.

(** ** The event loop *)

Lemma loop_step_length w st i : length (loop_step w st i).1 = length st.1.
Proof.
  unfold loop_step. destruct (st.1 !! i); [|done].
  destruct (doAsyncRequest w i c). cbn. apply length_insert.
Qed.

Lemma loop_step_lookup w st i j c :
  st.1 !! j = Some c ->
  (loop_step w st i).1 !! j = Some (if decide (i = j) then advance w j c else c).
Proof.
  intros Hj. unfold loop_step. destruct (decide (i = j)) as [->|Hne].
  - rewrite Hj. unfold advance. destruct (doAsyncRequest w j c). cbn.
    apply list_lookup_insert_eq. by eapply lookup_lt_Some.
  - destruct (st.1 !! i); [|done]. destruct (doAsyncRequest w i c0). cbn.
    by rewrite list_lookup_insert_ne.
Qed.

Lemma run_loop_length w sched st : length (fold_left (loop_step w) sched st).1 = length st.1.
Proof.
  revert st. induction sched as [|i sched IH]; intros st; [done|].
  cbn [fold_left]. by rewrite IH, loop_step_length.
Qed.

(** After the loop has run a schedule, each task has been resumed as many
    times as the schedule names it, whatever the order. *)
Lemma run_loop_lookup w sched st j c :
  st.1 !! j = Some c ->
  (fold_left (loop_step w) sched st).1 !! j = Some (Nat.iter (turns j sched) (advance w j) c).
Proof.
  revert st c. induction sched as [|i sched IH]; intros st c Hj; [done|].
  cbn [fold_left turns]. rewrite (IH _ _ (loop_step_lookup w st i j c Hj)).
  destruct (decide (i = j)); [|done]. by rewrite Nat.iter_succ_r.
Qed.

Lemma advance_finished w i o n : Nat.iter n (advance w i) (Finished o) = Finished o.
Proof. induction n as [|n IH]; [done|]. by rewrite Nat.iter_succ, IH. Qed.

(** Three resumptions finish a probe, and further ones change nothing. *)
Lemma advance_settles w i method url n :
  (3 <= n)%nat ->
  Nat.iter n (advance w i) (Created method url) = Finished (probe_result w i method url).
Proof.
  intros Hn. replace n with ((n - 3) + 3)%nat by lia. rewrite Nat.iter_add.
  assert (H3 : Nat.iter 3 (advance w i) (Created method url)
               = Finished (probe_result w i method url)).
  { unfold probe_result. cbn. unfold advance. cbn. destruct (aio_server w i method url); done. }
  rewrite H3. apply advance_finished.
Qed.

(** On site definitions the loop that fills [tasks] creates one coroutine
    per site, in order, with the template instantiated. *)
Lemma make_tasks_templates username sites ts :
  mapM site_template sites = Some ts ->
  make_tasks username sites
  = Ok (map (fun t => Created "GET" (str_replace placeholder username t)) ts).
Proof.
  intros H. apply mapM_Some in H.
  induction H as [|site t sites ts Ht _ IH]; [done|].
  cbn [make_tasks map]. rewrite IH.
  unfold site_template in Ht. destruct site as [| | | | |d]; try done.
  destruct (dict_get "uri_check" d) as [[| | |s| |]|] eqn:E; try done. simplify_eq.
  unfold probe_url, subscript. rewrite E. done.
Qed.

(** Once every task has settled, [gather] returns the slots in the order of
    the tasks. *)
Lemma gather_settles w sched urls :
  settles sched (length urls) ->
  gather sched (map (Created "GET") urls) w
  = (Ok (Some (imap (fun i url => probe_result w i "GET" url) urls)),
     emit (run_loop w sched (map (Created "GET") urls)).2 w).
Proof.
  intros Hs. unfold gather, run_loop.
  destruct (fold_left (loop_step w) sched (map (Created "GET") urls, [])) as [tasks' out] eqn:E.
  cbn [snd]. do 2 f_equal. f_equal. apply mapM_Some.
  assert (Hlen := run_loop_length w sched (map (Created "GET") urls, [])).
  rewrite E in Hlen. cbn [fst] in Hlen. rewrite length_map in Hlen.
  apply Forall2_same_length_lookup. split; [by rewrite length_imap|].
  intros i c o Hc Ho. rewrite list_lookup_imap in Ho.
  destruct (urls !! i) as [url|] eqn:Hu; [|done]. cbn in Ho. simplify_eq.
  assert (Hi : (map (Created "GET") urls, @nil str).1 !! i = Some (Created "GET" url)).
  { cbn. by rewrite list_lookup_fmap, Hu. }
  pose proof (run_loop_lookup w sched _ i _ Hi) as Hrun. rewrite E in Hrun. cbn [fst] in Hrun.
  rewrite Hc in Hrun. simplify_eq.
  rewrite advance_settles; [done|]. apply Hs. by eapply lookup_lt_Some.
Qed.

(** [fetchResults] on a catalog of site definitions, under a schedule that
    settles every probe. *)
Lemma fetchResults_settles cfg w username sched text data ts :
  files w !! listFileName cfg = Some text ->
  json_loads text = Some data ->
  catalog_templates data = Some ts ->
  settles sched (length ts) ->
  exists w',
    fetchResults cfg username sched w
    = (Ok (Some (imap (fun i t => probe_result w i "GET" (str_replace placeholder username t)) ts)),
       w')
    /\ files w' = files w.
Proof.
  intros Hf Hd Ht Hs. unfold fetchResults.
  run_bind. rewrite (readList_file cfg w text data Hf Hd).
  unfold catalog_templates in Ht. destruct data as [| | | | |d]; try done.
  destruct (dict_get "sites" d) as [[| | | |sites|]|] eqn:E; try done.
  run_bind. unfold lift at 1. unfold subscript. rewrite E.
  run_bind. unfold lift at 1. cbn [iterate].
  run_bind. unfold lift at 1.
  rewrite (make_tasks_templates username sites ts Ht).
  rewrite <- (map_map (fun t => str_replace placeholder username t) (Created "GET")).
  rewrite gather_settles by (by rewrite length_map).
  assert (Himap : imap (fun i url => probe_result w i "GET" url)
                    (map (fun t => str_replace placeholder username t) ts)
                  = imap (fun i t => probe_result w i "GET" (str_replace placeholder username t)) ts).
  { apply list_eq. intros i. rewrite !list_lookup_imap, list_lookup_fmap.
    by destruct (ts !! i). }
  rewrite Himap. eexists. split; [reflexivity|done].
Qed.

(** [settles], decided by counting. *)
Lemma settles_turns sched n :
  forallb (fun i => 3 <=? turns i sched)%nat (seq 0 n) = true -> settles sched n.
Proof.
  intros H i Hi. rewrite forallb_forall in H. apply Nat.leb_le. apply H.
  apply in_seq. lia.
Qed.

(** A schedule that resumes the tasks one after the other settles them. *)
Lemma round_robin_settles n :
  settles (flat_map (fun i => [i; i; i]) (seq 0 n)) n.
Proof.
  intros i Hi. assert (Hin : i ∈ seq 0 n) by (apply list_elem_of_In, in_seq; lia).
  induction (seq 0 n) as [|j l IH]; [by apply elem_of_nil in Hin|].
  cbn [flat_map app turns]. apply elem_of_cons in Hin as [->|Hin].
  - rewrite !decide_True by done. lia.
  - specialize (IH Hin). repeat case_decide; lia.
Qed.

(** ** Formatting a template *)

Lemma cons_app_ok c s r : cons_ok c (app_ok s r) = app_ok (c :: s) r.
Proof. by destruct r as [[]|]. Qed.

(** Text without braces is copied. *)
Lemma format_literal arg nb s rest :
  brace_free s = true ->
  format_from arg None nb (s ++ rest) = app_ok s (format_from arg None nb rest).
Proof.
  induction s as [|c s IH]; intros H.
  - cbn. by destruct (format_from arg None nb rest) as [[]|].
  - cbn in H. apply andb_true_iff in H as [Hc H]. apply negb_true_iff in Hc.
    apply orb_false_iff in Hc as [H1 H2].
    cbn [app format_from]. rewrite H1, H2, IH by done. apply cons_app_ok.
Qed.

Lemma format_brace_free arg nb s :
  brace_free s = true -> format_from arg None nb s = Some (Ok s).
Proof.
  intros H. rewrite <- (app_nil_r s) at 1. rewrite format_literal by done.
  cbn. by rewrite app_nil_r.
Qed.

(** A template with one [{}] field and no other brace. *)
Lemma str_format_one_field arg pre post :
  brace_free pre = true -> brace_free post = true ->
  str_format (pre ++ "{}" ++ post) arg = Some (Ok (pre ++ arg ++ post)).
Proof.
  intros Hpre Hpost. unfold str_format. rewrite format_literal by done.
  change (lit "{}" ++ post) with ("{"%char :: "}"%char :: post).
  cbn [format_from]. change (ord "{"%char =? 123)%N with true.
  change (ord "}"%char =? 123)%N with false. change (ord "}"%char =? 125)%N with true.
  cbn [rev app field_value]. rewrite format_brace_free by done. done.
Qed.

(** ** The freshness controller, case by case *)

Ltac run_all :=
  unfold checkUpdates, downloadList, doSyncRequest, readList, read_file, requests_request,
    write_file, print, raise, mbind, M_bind, mret, M_ret, isfile in *.

Ltac by_compute := apply (bool_decide_unpack _); vm_compute; exact I.

(** A local catalog that does not decode stops the run before any
    request. *)
Lemma checkUpdates_undecodable_local cfg w text :
  files w !! listFileName cfg = Some text ->
  json_loads text = None ->
  checkUpdates cfg w = (Raise JSONDecodeError, emit [lit "[-] Checking for updates..."] w).
Proof.
  intros Hf Hd. unfold checkUpdates.
  assert (Hi : isfile (listFileName cfg) w = true) by (apply isfile_true; eauto).
  rewrite Hi. run_bind. unfold print at 1. run_bind. unfold readList. run_bind.
  unfold read_file. cbn [emit files]. by rewrite Hf, Hd.
Qed.

Lemma catalog0_reordered_ok : reordered catalog0 catalog0_reordered.
Proof.
  unfold catalog0, catalog0_reordered.
  eapply reordered_obj; [|apply Permutation_swap].
  repeat constructor; cbn.
  eapply reordered_obj; [|apply Permutation_swap].
  repeat constructor.
Qed.

(** ** What the probes print *)

Lemma emit_emit a b w : emit a (emit b w) = emit (b ++ a) w.
Proof. unfold emit. cbn. by rewrite app_assoc. Qed.

Lemma sum_list_with_insert {A} (f : A -> nat) (l : list A) i x y :
  l !! i = Some x ->
  (sum_list_with f (<[i:=y]> l) + f x = sum_list_with f l + f y)%nat.
Proof.
  revert i. induction l as [|z l IH]; intros [|i] H; try done; simpl in *.
  - simplify_eq. unfold sum_list_with; fold (sum_list_with f). lia.
  - specialize (IH i H). lia.
Qed.

Lemma doAsyncRequest_prints w i c :
  (doAsyncRequest w i c).2 = replicate (started (doAsyncRequest w i c).1 - started c) sending
  /\ (started c <= started (doAsyncRequest w i c).1)%nat.
Proof.
  destruct c as [m u|m u|r|o]; cbn; try destruct (aio_server w i m u);
    (split; [reflexivity|cbn; lia]).
Qed.

Lemma loop_step_prints w st i :
  st.2 = replicate (sum_list_with started st.1) sending ->
  (loop_step w st i).2 = replicate (sum_list_with started (loop_step w st i).1) sending.
Proof.
  intros Hinv. unfold loop_step. destruct (st.1 !! i) as [c|] eqn:E; [|done].
  destruct (doAsyncRequest_prints w i c) as [Hout Hle].
  destruct (doAsyncRequest w i c) as [c' out]. cbn [fst snd] in *.
  pose proof (sum_list_with_insert started st.1 i c c' E) as Hsum.
  rewrite Hinv, Hout, <- replicate_add. f_equal. lia.
Qed.

Lemma run_loop_prints w sched st :
  st.2 = replicate (sum_list_with started st.1) sending ->
  (fold_left (loop_step w) sched st).2
  = replicate (sum_list_with started (fold_left (loop_step w) sched st).1) sending.
Proof.
  revert st. induction sched as [|i sched IH]; intros st H; [done|].
  cbn [fold_left]. apply IH. by apply loop_step_prints.
Qed.

Lemma sum_started_created urls : sum_list_with started (map (Created "GET") urls) = 0%nat.
Proof. by induction urls. Qed.

Lemma sum_started_finished (tasks : list coroutine) results :
  mapM slot tasks = Some results -> sum_list_with started tasks = length tasks.
Proof.
  intros H. apply mapM_Some in H. induction H as [|c o l k Hc _ IH]; [done|].
  destruct c; try done. cbn. by rewrite IH.
Qed.

(** The world that [gather] leaves: one line per probe. *)
Lemma gather_settles_world w sched urls :
  settles sched (length urls) ->
  gather sched (map (Created "GET") urls) w
  = (Ok (Some (imap (fun i url => probe_result w i "GET" url) urls)),
     emit (replicate (length urls) sending) w).
Proof.
  intros Hs. rewrite (gather_settles w sched urls Hs). f_equal. f_equal.
  pose proof (gather_settles w sched urls Hs) as Hg. unfold gather in Hg.
  unfold run_loop in *.
  pose proof (run_loop_prints w sched (map (Created "GET") urls, [])) as Hp.
  pose proof (run_loop_length w sched (map (Created "GET") urls, [])) as Hl.
  destruct (fold_left (loop_step w) sched (map (Created "GET") urls, [])) as [tasks' out].
  cbn [fst snd] in *. simplify_eq.
  rewrite Hp by (by rewrite sum_started_created).
  match goal with H : mapM slot _ = _ |- _ => rewrite (sum_started_finished _ _ H) end.
  by rewrite Hl, length_map.
Qed.

Lemma fetchResults_catalog cfg w username sched text d sites :
  files w !! listFileName cfg = Some text ->
  json_loads text = Some (JObj d) ->
  dict_get "sites" d = Some (JArr sites) ->
  fetchResults cfg username sched w
  = match make_tasks username sites with
    | Ok tasks => gather sched tasks w
    | Raise e => (Raise e, w)
    end.
Proof.
  intros Hf Hd Hs. unfold fetchResults.
  run_bind. rewrite (readList_file cfg w text _ Hf Hd).
  run_bind. unfold lift at 1. unfold subscript. rewrite Hs.
  run_bind. unfold lift at 1. cbn [iterate].
  run_bind. unfold lift at 1. by destruct (make_tasks username sites).
Qed.

Lemma catalog_templates_inv data ts :
  catalog_templates data = Some ts ->
  exists d sites, data = JObj d /\ dict_get "sites" d = Some (JArr sites)
                  /\ mapM site_template sites = Some ts.
Proof.
  unfold catalog_templates. destruct data as [| | | | |d]; try done.
  destruct (dict_get "sites" d) as [[| | | |sites|]|] eqn:E; try done. eauto.
Qed.

Lemma site_template_None username site :
  site_template site = None -> exists e, probe_url username site = Raise e.
Proof.
  unfold site_template, probe_url, subscript. destruct site as [| | | | |d]; try by eauto.
  destruct (dict_get "uri_check" d) as [[| | |s| |]|]; try done; cbn; eauto.
Qed.

Lemma make_tasks_app_raise username good bad rest e :
  is_Some (mapM site_template good) ->
  probe_url username bad = Raise e ->
  make_tasks username (good ++ bad :: rest) = Raise e.
Proof.
  intros [ts Hg] Hb. apply mapM_Some in Hg.
  induction Hg as [|site t sites ts Ht _ IH]; cbn [app make_tasks]; [by rewrite Hb|].
  rewrite IH. unfold site_template in Ht. destruct site as [| | | | |d]; try done.
  destruct (dict_get "uri_check" d) as [[| | |s| |]|] eqn:E; try done.
  unfold probe_url, subscript. rewrite E. done.
Qed.

Lemma make_tasks_raise username sites e :
  make_tasks username sites = Raise e ->
  (exists k, e = KeyError k) \/ e = TypeError \/ e = AttributeError.
Proof.
  induction sites as [|site sites IH]; cbn [make_tasks]; [done|].
  destruct (probe_url username site) as [url|e'] eqn:E.
  - destruct (make_tasks username sites); [done|]. intros [= ->]. by apply IH.
  - intros [= ->]. unfold probe_url, subscript, replace_method in E.
    repeat case_match; simplify_eq; eauto.
Qed.

Lemma for_each_print {A} (render : A -> str) items w :
  for_each items (fun item => print (render item)) w = (Ok tt, emit (map render items) w).
Proof.
  revert w. induction items as [|item items IH]; intros w; cbn [for_each map].
  - unfold emit. rewrite app_nil_r. by destruct w.
  - run_bind. unfold print at 1. rewrite IH. by rewrite emit_emit.
Qed.

(** ** Every occurrence of the placeholder, and templates with one field *)

Lemma split_field_spec t pre post :
  split_field t = Some (pre, post) -> t = pre ++ "{}" ++ post /\ brace_free pre = true.
Proof.
  revert pre. induction t as [|c rest IH]; intros pre H; [done|]. cbn [split_field] in H.
  destruct (ord c =? 123)%N eqn:E1.
  - destruct rest as [|c' rest']; [done|]. destruct (ord c' =? 125)%N eqn:E2; [|done].
    simplify_eq. apply N.eqb_eq in E1, E2.
    assert (c = "{"%char) as ->
      by (rewrite <- (ascii_N_embedding c); unfold ord in E1; by rewrite E1).
    assert (c' = "}"%char) as ->
      by (rewrite <- (ascii_N_embedding c'); unfold ord in E2; by rewrite E2).
    done.
  - destruct (ord c =? 125)%N eqn:E2; [done|].
    destruct (split_field rest) as [[pre' post']|] eqn:Hs; [|done]. cbn in H. simplify_eq.
    destruct (IH pre' eq_refl) as [-> Hb]. split; [done|]. cbn. by rewrite E1, E2.
Qed.

Lemma one_field_spec t :
  one_field t = true ->
  exists pre post, t = pre ++ "{}" ++ post /\ brace_free pre = true /\ brace_free post = true.
Proof.
  unfold one_field. destruct (split_field t) as [[pre post]|] eqn:Hs; [|done]. intros Hb.
  destruct (split_field_spec _ _ _ Hs) as [-> Hpre]. eauto.
Qed.

Lemma join_cons2 sep (x y : str) rest :
  join sep (x :: y :: rest) = x ++ sep ++ join sep (y :: rest).
Proof. reflexivity. Qed.

Lemma replace_join new segs :
  Forall (fun s => contains placeholder s = false) segs ->
  str_replace placeholder new (join placeholder segs) = join new segs.
Proof.
  induction 1 as [|x segs Hx Hsegs IH]; [done|].
  destruct segs as [|y rest]; [by apply replace_absent|].
  rewrite !join_cons2, replace_first by done. by rewrite IH.
Qed.

(** ** The platform map *)

Lemma enlist_listed name cs c : listed name (enlist name cs c) c.
Proof.
  unfold enlist, listed. destruct (cs !! c) as [members|] eqn:E.
  - destruct (decide (name ∈ members)).
    + eauto.
    + exists (members ++ [name]). rewrite lookup_insert_eq. split; [done|].
      apply elem_of_app. right. left.
  - exists [name]. rewrite lookup_insert_eq. split; [done|]. left.
Qed.

Lemma enlist_keeps name cs c c' : listed name cs c' -> listed name (enlist name cs c) c'.
Proof.
  intros (members & Hc & Hin). destruct (decide (c = c')) as [->|Hne].
  - apply enlist_listed.
  - exists members. split; [|done]. unfold enlist.
    destruct (cs !! c) as [m|]; [destruct (decide (name ∈ m))|]; try done;
      by rewrite lookup_insert_ne.
Qed.

Lemma enlist_id name cs c : listed name cs c -> enlist name cs c = cs.
Proof. intros (members & Hc & Hin). unfold enlist. rewrite Hc. by rewrite decide_True. Qed.

Lemma enlist_all_listed name l cs c :
  c ∈ l \/ listed name cs c -> listed name (fold_left (enlist name) l cs) c.
Proof.
  revert cs. induction l as [|c0 l IH]; intros cs H; cbn [fold_left].
  - destruct H as [H|H]; [by apply elem_of_nil in H|done].
  - apply IH. destruct H as [H|H].
    + apply elem_of_cons in H as [->|H]; [right; apply enlist_listed|by left].
    + right. by apply enlist_keeps.
Qed.

Lemma enlist_all_id name l cs :
  (forall c, c ∈ l -> listed name cs c) -> fold_left (enlist name) l cs = cs.
Proof.
  induction l as [|c0 l IH]; intros H; cbn [fold_left]; [done|].
  rewrite enlist_id by (apply H; left). apply IH. intros c Hc. apply H. by right.
Qed.

Lemma enlist_other name cs c c' : c <> c' -> enlist name cs c !! c' = cs !! c'.
Proof.
  intros Hne. unfold enlist.
  destruct (cs !! c) as [m|]; [destruct (decide (name ∈ m))|]; try done;
    by rewrite lookup_insert_ne.
Qed.

Lemma enlist_all_other name l cs c' :
  c' ∉ l -> fold_left (enlist name) l cs !! c' = cs !! c'.
Proof.
  revert cs. induction l as [|c0 l IH]; intros cs H; cbn [fold_left]; [done|].
  apply not_elem_of_cons in H as [Hne H]. rewrite IH by done. by apply enlist_other.
Qed.

Lemma enlist_nodup name cs c :
  map_Forall (fun _ members => NoDup members) cs ->
  map_Forall (fun _ members => NoDup members) (enlist name cs c).
Proof.
  intros H. unfold enlist. destruct (cs !! c) as [m|] eqn:E.
  - destruct (decide (name ∈ m)); [done|].
    apply map_Forall_insert_2; [|done]. apply NoDup_app. split; [by eapply H|].
    split; [|apply NoDup_singleton]. intros x Hx Hx'. apply list_elem_of_singleton in Hx'. by subst.
  - apply map_Forall_insert_2; [apply NoDup_singleton|done].
Qed.

Lemma add_platform_categories self name t l :
  categories (add_platform self name t (Some l))
  = fold_left (enlist name) l (categories self).
Proof. by destruct l. Qed.

Lemma add_platform_platforms self name t cats :
  platforms (add_platform self name t cats) = <[name := t]> (platforms self).
Proof. by destruct cats as [[|c l]|]. Qed.

Lemma remove_first_nodup x members : NoDup members -> x ∉ remove_first x members.
Proof.
  induction 1 as [|y l Hy Hl IH]; cbn; [apply not_elem_of_nil|].
  destruct (decide (x = y)) as [->|Hne]; [done|]. by apply not_elem_of_cons.
Qed.

Lemma manager_eq (a b : PlatformURLManager) :
  platforms a = platforms b -> categories a = categories b -> a = b.
Proof. destruct a, b. cbn. by intros -> ->. Qed.

(** [list.remove]: the first occurrence goes, the rest stays in order. *)
Lemma remove_first_split x members :
  x ∈ members ->
  exists pre post, members = pre ++ x :: post /\ (x ∉ pre) /\ remove_first x members = pre ++ post.
Proof.
  induction members as [|y l IH]; intros H; [by apply elem_of_nil in H|].
  cbn. destruct (decide (x = y)) as [->|Hne].
  - exists [], l. split; [done|]. split; [apply not_elem_of_nil|done].
  - apply elem_of_cons in H as [->|H]; [done|].
    destruct (IH H) as (pre & post & -> & Hpre & ->).
    exists (y :: pre), post. split; [done|]. split; [|done]. by apply not_elem_of_cons.
Qed.


(** * The claims *)

(** C1.  For a catalog whose [sites] sequence holds [N] site definitions and
    any username, [fetchResults] returns exactly [N] results, the i-th one
    being the result of the probe of the i-th site, whatever the order in
    which the event loop resumes and completes the probes. *)
Theorem fetchResults_one_result_per_site cfg w username sched text data ts :
  files w !! listFileName cfg = Some text ->
  json_loads text = Some data ->
  catalog_templates data = Some ts ->
  settles sched (length ts) ->
  exists results w',
    fetchResults cfg username sched w = (Ok (Some results), w')
    /\ length results = length ts
    /\ forall i t, ts !! i = Some t ->
         results !! i = Some (probe_result w i "GET" (str_replace placeholder username t)).
Proof.
  intros Hf Hd Ht Hs.
  destruct (fetchResults_settles cfg w username sched text data ts Hf Hd Ht Hs) as (w' & H & _).
  eexists _, w'. split; [exact H|]. split; [apply length_imap|].
  intros i t Hi. by rewrite list_lookup_imap, Hi.
Qed.

Lemma fetchResults_one_result_per_site_witness :
  exists results w',
    fetchResults cfg0 "alice" [1; 0; 1; 0; 0; 1]%nat
      (probing_world two_sites_text (fun _ => Completed found_response))
    = (Ok (Some results), w')
    /\ length results = length two_templates
    /\ forall i t,
         two_templates !! i = Some t ->
         results !! i
         = Some (probe_result (probing_world two_sites_text (fun _ => Completed found_response))
                   i "GET" (str_replace placeholder "alice" t)).
Proof.
  apply (fetchResults_one_result_per_site cfg0
           (probing_world two_sites_text (fun _ => Completed found_response))
           "alice" [1; 0; 1; 0; 0; 1]%nat two_sites_text
           two_sites two_templates).
  - vm_compute. reflexivity.
  - vm_compute. reflexivity.
  - vm_compute. reflexivity.
  - apply settles_turns. vm_compute. reflexivity.
Defined.

Example fetchResults_example_scenario :
  (fetchResults cfg0 "alice" [0; 0; 0]%nat
     (probing_world (q "{'sites':[{'name':'Example','uri_check':'https://example.com/{account}'}]}")
        (fun _ => Completed found_response))).1
  = Ok (Some [Returned found_response (JObj [(lit "found", JBool true)])]).
Proof. vm_compute. reflexivity. Qed.

(** C2.  Whatever subset of the probes fails in the network, [fetchResults]
    still returns one result per site: the failed probes leave their
    exception in their slot, and every other slot holds what it holds when
    nothing fails. *)
Theorem fetchResults_isolates_failures cfg w username sched text data ts fails :
  files w !! listFileName cfg = Some text ->
  json_loads text = Some data ->
  catalog_templates data = Some ts ->
  settles sched (length ts) ->
  exists results w',
    fetchResults cfg username sched (with_failures fails w) = (Ok (Some results), w')
    /\ length results = length ts
    /\ forall i t, ts !! i = Some t ->
         results !! i =
           Some (match fails i with
                 | Some k => Raised (NetworkError k)
                 | None => probe_result w i "GET" (str_replace placeholder username t)
                 end).
Proof.
  intros Hf Hd Ht Hs.
  destruct (fetchResults_settles cfg (with_failures fails w) username sched text data ts)
    as (w' & H & _); try done.
  eexists _, w'. split; [exact H|]. split; [apply length_imap|].
  intros i t Hi. rewrite list_lookup_imap, Hi. cbn. f_equal.
  unfold probe_result, with_failures. cbn. by destruct (fails i).
Qed.

Lemma fetchResults_isolates_failures_witness :
  exists results w',
    fetchResults cfg0 "alice" [0; 1; 0; 1; 0; 1]%nat
      (with_failures (fun i => if decide (i = 0%nat) then Some TLSFailure else None)
         (probing_world two_sites_text (fun _ => Completed found_response)))
    = (Ok (Some results), w')
    /\ length results = length two_templates
    /\ forall i t,
         two_templates !! i = Some t ->
         results !! i
         = Some (match (if decide (i = 0%nat) then Some TLSFailure else None) with
                 | Some k => Raised (NetworkError k)
                 | None =>
                     probe_result (probing_world two_sites_text (fun _ => Completed found_response))
                       i "GET" (str_replace placeholder "alice" t)
                 end).
Proof.
  apply (fetchResults_isolates_failures cfg0
           (probing_world two_sites_text (fun _ => Completed found_response))
           "alice" [0; 1; 0; 1; 0; 1]%nat two_sites_text
           two_sites two_templates
           (fun i => if decide (i = 0%nat) then Some TLSFailure else None)).
  - vm_compute. reflexivity.
  - vm_compute. reflexivity.
  - vm_compute. reflexivity.
  - apply settles_turns. vm_compute. reflexivity.
Defined.

(** C3.  The run of the controller on a local catalog and a remote server
    that answers with a page that is not JSON: the run succeeds and the
    local catalog file holds [null] afterwards, which [readList] then
    returns in place of the catalog. *)
Theorem checkUpdates_undecodable_remote :
  let w := world0 (Some catalog_text) None (respond 503 html_page) in
  readList cfg0 w = (Ok catalog0, w)
  /\ (checkUpdates cfg0 w).1 = Ok tt
  /\ files (checkUpdates cfg0 w).2 !! listFileName cfg0 = Some (lit "null")
  /\ (readList cfg0 (checkUpdates cfg0 w).2).1 = Ok JNull.
Proof. vm_compute. repeat split. Qed.

(** A device that is full when [downloadList] writes: the file was
    truncated when it was opened, and the catalog that was there is gone. *)
Lemma downloadList_interrupted_counterexample :
  let w := world0 (Some stale_text) (Some 0%nat) (respond 200 catalog_text) in
  (downloadList cfg0 w).1 = Raise OSError
  /\ files w !! listFileName cfg0 = Some stale_text
  /\ files (downloadList cfg0 w).2 !! listFileName cfg0 = Some []
  /\ files (downloadList cfg0 w).2 !! listFileName cfg0 <> files w !! listFileName cfg0.
Proof. vm_compute. repeat split. discriminate. Qed.

(** C4, as the code has it.  [downloadList] fetches first and writes after:
    a fetch that fails raises and leaves the files as they were; a write
    that the device interrupts after [k] characters raises [OSError] and
    leaves the first [k] characters of the new document in the catalog
    file, other files untouched. *)
Theorem downloadList_failure_modes cfg w :
  (forall k, server w (served w) "GET" (listURL cfg) = Failed k ->
     exists w', downloadList cfg w = (Raise (NetworkError k), w') /\ files w' = files w)
  /\ (forall r k,
        server w (served w) "GET" (listURL cfg) = Completed r ->
        disk_budget w = Some k ->
        (k < length (json_dumps dump_encoder (swallow (requests_json r))))%nat ->
        exists w', downloadList cfg w = (Raise OSError, w')
          /\ files w' !! listFileName cfg
             = Some (take k (json_dumps dump_encoder (swallow (requests_json r))))
          /\ forall path, path <> listFileName cfg -> files w' !! path = files w !! path).
Proof.
  split.
  - intros k Hs. rewrite (downloadList_failed cfg w k Hs). eauto.
  - intros r k Hs Hb Hk. rewrite (downloadList_completed cfg w r Hs).
    unfold write_file. cbn [tick disk_budget]. rewrite Hb.
    apply Nat.ltb_lt in Hk. rewrite Hk. eexists. split; [done|]. cbn. split.
    + apply lookup_insert_eq.
    + intros path Hne. by apply lookup_insert_ne.
Qed.

Lemma downloadList_failure_modes_witness :
  (exists w', downloadList cfg0 (world0 (Some stale_text) None (Failed TimedOut))
              = (Raise (NetworkError TimedOut), w')
     /\ files w' = files (world0 (Some stale_text) None (Failed TimedOut)))
  /\ (exists w', downloadList cfg0 (world0 (Some stale_text) (Some 7%nat) (respond 200 catalog_text))
              = (Raise OSError, w')
     /\ files w' !! listFileName cfg0 = Some (take 7 (json_dumps dump_encoder catalog0))).
Proof.
  split.
  - destruct (downloadList_failure_modes cfg0 (world0 (Some stale_text) None (Failed TimedOut)))
      as [Hfetch _].
    apply Hfetch. reflexivity.
  - destruct (downloadList_failure_modes cfg0
                (world0 (Some stale_text) (Some 7%nat) (respond 200 catalog_text)))
      as [_ Hwrite].
    destruct (Hwrite {| status := 200; json_content_type := true; body := catalog_text |} 7%nat)
      as (w' & H1 & H2 & _).
    + reflexivity.
    + reflexivity.
    + vm_compute. lia.
    + exists w'. split; [exact H1|]. rewrite H2. vm_compute. reflexivity.
Defined.

(** C5.  With a remote server that serves the catalog [C]: from Absent the
    controller ends Present with [C] as the local catalog; from Present
    with the fingerprint of [C] it writes nothing; from Present with
    another fingerprint the local catalog becomes [C]. *)
Theorem checkUpdates_state_machine cfg w r C :
  (forall n, server w n "GET" (listURL cfg) = Completed r) ->
  requests_json r = Some C ->
  disk_allows (length (json_dumps dump_encoder C)) w ->
  (files w !! listFileName cfg = None ->
     exists w', checkUpdates cfg w = (Ok tt, w')
       /\ isfile (listFileName cfg) w' = true
       /\ readList cfg w' = (Ok C, w'))
  /\ (forall text L,
        files w !! listFileName cfg = Some text -> json_loads text = Some L ->
        (hashJSON L = hashJSON C ->
           exists w', checkUpdates cfg w = (Ok tt, w') /\ files w' = files w)
        /\ (hashJSON L <> hashJSON C ->
           exists w', checkUpdates cfg w = (Ok tt, w')
             /\ isfile (listFileName cfg) w' = true
             /\ readList cfg w' = (Ok C, w'))).
Proof.
  intros Hs HC Hd.
  assert (Hdl : forall w1, server w1 = server w -> disk_budget w1 = disk_budget w ->
            exists w', downloadList cfg w1 = (Ok tt, w')
              /\ isfile (listFileName cfg) w' = true /\ readList cfg w' = (Ok C, w')).
  { intros w1 E1 E2.
    destruct (downloadList_then_readList cfg w1 r) as (w' & H1 & H2 & H3).
    - rewrite E1. apply Hs.
    - rewrite HC. cbn [swallow]. unfold disk_allows in *. by rewrite E2.
    - rewrite HC in *. cbn [swallow] in *. exists w'. split; [done|]. split; [|done].
      apply isfile_true. eauto. }
  split.
  - intros Habs. rewrite (checkUpdates_absent cfg w Habs). by apply Hdl.
  - intros text L Hf HL.
    rewrite (checkUpdates_present cfg w text L r Hf HL (Hs _)). rewrite HC. cbn [swallow]. cbn zeta.
    split; intros Hh.
    + rewrite decide_False by (intros Hne; by apply Hne). eauto.
    + rewrite decide_True by done. by apply Hdl.
Qed.

Lemma checkUpdates_state_machine_witness :
  (exists w', checkUpdates cfg0 (world0 None None (respond 200 catalog_text)) = (Ok tt, w')
       /\ isfile (listFileName cfg0) w' = true
       /\ readList cfg0 w' = (Ok catalog0, w'))
  /\ (exists w', checkUpdates cfg0 (world0 (Some catalog_text) None (respond 200 catalog_text)) = (Ok tt, w')
       /\ files w' = files (world0 (Some catalog_text) None (respond 200 catalog_text)))
  /\ (exists w', checkUpdates cfg0 (world0 (Some stale_text) None (respond 200 catalog_text)) = (Ok tt, w')
       /\ isfile (listFileName cfg0) w' = true
       /\ readList cfg0 w' = (Ok catalog0, w')).
Proof.
  assert (HC : requests_json {| status := 200; json_content_type := true; body := catalog_text |}
               = Some catalog0) by (vm_compute; reflexivity).
  split; [|split].
  - destruct (checkUpdates_state_machine cfg0 (world0 None None (respond 200 catalog_text))
                _ catalog0 (fun _ => eq_refl) HC I) as [Habsent _].
    apply Habsent. vm_compute. reflexivity.
  - destruct (checkUpdates_state_machine cfg0
                (world0 (Some catalog_text) None (respond 200 catalog_text))
                _ catalog0 (fun _ => eq_refl) HC I) as [_ Hpresent].
    destruct (Hpresent catalog_text catalog0) as [Hsame _].
    + vm_compute. reflexivity.
    + vm_compute. reflexivity.
    + apply Hsame. reflexivity.
  - destruct (checkUpdates_state_machine cfg0
                (world0 (Some stale_text) None (respond 200 catalog_text))
                _ catalog0 (fun _ => eq_refl) HC I) as [_ Hpresent].
    destruct (Hpresent stale_text (JObj [(lit "sites", JArr [])])) as [_ Hdiffer].
    + vm_compute. reflexivity.
    + vm_compute. reflexivity.
    + apply Hdiffer. vm_compute. discriminate.
Defined.

(** C6.  The URL probed for a site is its [uri_check] with the username in
    place of the placeholder: a template with one placeholder gives the
    text before it, the username and the text after it; a template
    without a placeholder is used as it is. *)
Theorem probe_url_substitutes username fields t :
  dict_get "uri_check" fields = Some (JStr t) ->
  probe_url username (JObj fields) = Ok (str_replace placeholder username t)
  /\ (forall pre post,
        t = pre ++ placeholder ++ post ->
        contains placeholder pre = false -> contains placeholder post = false ->
        probe_url username (JObj fields) = Ok (pre ++ username ++ post))
  /\ (contains placeholder t = false -> probe_url username (JObj fields) = Ok t).
Proof.
  intros Hf.
  assert (H : probe_url username (JObj fields) = Ok (str_replace placeholder username t)).
  { unfold probe_url, subscript. by rewrite Hf. }
  split; [done|]. rewrite H. split.
  - intros pre post -> Hpre Hpost. by rewrite replace_first, replace_absent.
  - intros Hno. by rewrite replace_absent.
Qed.

Lemma probe_url_substitutes_witness :
  probe_url "alice" (JObj [(lit "name", JStr "Example");
                           (lit "uri_check", JStr "https://example.com/{account}")])
  = Ok (lit "https://example.com/alice")
  /\ probe_url "alice" (JObj [(lit "uri_check", JStr "https://example.com/about")])
     = Ok (lit "https://example.com/about").
Proof.
  split.
  - destruct (probe_url_substitutes "alice"
                [(lit "name", JStr "Example");
                 (lit "uri_check", JStr "https://example.com/{account}")]
                "https://example.com/{account}") as (_ & Hone & _).
    + reflexivity.
    + apply (Hone "https://example.com/" []); reflexivity.
  - destruct (probe_url_substitutes "alice"
                [(lit "uri_check", JStr "https://example.com/about")]
                "https://example.com/about") as (_ & _ & Hnone).
    + reflexivity.
    + apply Hnone. reflexivity.
Defined.

(** C7.  Two values that differ only in the order of the keys of their
    objects, at any depth, have the same fingerprint. *)
Theorem hashJSON_key_order v v' :
  wf_json v -> reordered v v' -> hashJSON v = hashJSON v'.
Proof.
  intros Hwf Hr. unfold hashJSON, json_dumps.
  by rewrite (encode_reordered hash_encoder eq_refl v Hwf v' 0 Hr).
Qed.

Lemma hashJSON_key_order_witness : hashJSON catalog0 = hashJSON catalog0_reordered.
Proof.
  apply hashJSON_key_order.
  - apply (json_loads_wf (json_dumps dump_encoder catalog0)). vm_compute. reflexivity.
  - unfold catalog0, catalog0_reordered.
    eapply reordered_obj; [|apply Permutation_swap].
    repeat constructor; cbn.
    eapply reordered_obj; [|apply Permutation_swap].
    repeat constructor.
Defined.



(** C9.  What [json.dump] writes for a value is read back by [json.load] as
    that value, every top-level field included; so [readList] after the
    write of [downloadList] returns the value written. *)
Theorem readList_after_dump cfg w C :
  wf_json C ->
  disk_allows (length (json_dumps dump_encoder C)) w ->
  json_loads (json_dumps dump_encoder C) = Some C
  /\ (exists w', write_file (listFileName cfg) (json_dumps dump_encoder C) w = (Ok tt, w')
                 /\ readList cfg w' = (Ok C, w'))
  /\ (forall r,
        server w (served w) "GET" (listURL cfg) = Completed r ->
        requests_json r = Some C ->
        exists w', downloadList cfg w = (Ok tt, w') /\ readList cfg w' = (Ok C, w')).
Proof.
  intros Hwf Hd. assert (Hrt := json_loads_dumps dump_encoder eq_refl C Hwf).
  split; [done|]. split.
  - destruct (write_file_allowed (listFileName cfg) _ w Hd) as [b Hw].
    eexists. split; [exact Hw|]. by apply readList_written.
  - intros r Hs HC. rewrite (downloadList_completed cfg w r Hs), HC. cbn [swallow].
    destruct (write_file_allowed (listFileName cfg) _ (tick w) Hd) as [b Hw].
    eexists. split; [exact Hw|]. by apply readList_written.
Qed.

Lemma readList_after_dump_witness :
  json_loads (json_dumps dump_encoder catalog0) = Some catalog0
  /\ (exists w', write_file (listFileName cfg0) (json_dumps dump_encoder catalog0)
                   (world0 None None (respond 200 catalog_text)) = (Ok tt, w')
                 /\ readList cfg0 w' = (Ok catalog0, w'))
  /\ (exists w', downloadList cfg0 (world0 None None (respond 200 catalog_text)) = (Ok tt, w')
                 /\ readList cfg0 w' = (Ok catalog0, w')).
Proof.
  destruct (readList_after_dump cfg0 (world0 None None (respond 200 catalog_text)) catalog0)
    as (Hloads & Hfile & Hdownload).
  - apply (json_loads_wf catalog_text). vm_compute. reflexivity.
  - exact I.
  - split; [exact Hloads|]. split; [exact Hfile|].
    apply (Hdownload {| status := 200; json_content_type := true; body := catalog_text |}).
    + reflexivity.
    + vm_compute. reflexivity.
Defined.

(** An empty template is in the map and is not used; an empty fallback is
    given and is not returned. *)
Lemma get_profile_url_empty_template_counterexample :
  let self := {| platforms := {[ lit "Blog" := lit "" ]}; categories := ∅ |} in
  platforms self !! lit "Blog" = Some (lit "")
  /\ get_profile_url self "Blog" "alice" None <> str_format "" "alice"
  /\ get_profile_url self "Nowhere" "alice" (Some (lit "")) <> Some (Ok (lit "")).
Proof. vm_compute. repeat split; discriminate. Qed.

(** C10, as the code has it.  The lookup never raises.  A template that is
    not empty is formatted with the username (one with a single [{}] gives
    the text around it with the username in between); otherwise a
    fallback that is not empty is returned unchanged; otherwise the result
    is ["Unknown platform: "] followed by the platform name. *)
Theorem get_profile_url_fallback_chain self platform_name username fallback_url :
  (forall c t, platforms self !! platform_name = Some (c :: t) ->
     get_profile_url self platform_name username fallback_url = str_format (c :: t) username)
  /\ (forall pre post,
        platforms self !! platform_name = Some (pre ++ "{}" ++ post) ->
        brace_free pre = true -> brace_free post = true ->
        get_profile_url self platform_name username fallback_url
        = Some (Ok (pre ++ username ++ post)))
  /\ (platforms self !! platform_name = None \/ platforms self !! platform_name = Some [] ->
      (forall c f, fallback_url = Some (c :: f) ->
         get_profile_url self platform_name username fallback_url = Some (Ok (c :: f)))
      /\ (fallback_url = None \/ fallback_url = Some [] ->
         get_profile_url self platform_name username fallback_url
         = Some (Ok ("Unknown platform: " ++ platform_name)))).
Proof.
  split; [|split].
  - intros c t H. unfold get_profile_url. by rewrite H.
  - intros pre post H Hpre Hpost. unfold get_profile_url. rewrite H.
    rewrite <- str_format_one_field by done.
    destruct pre; reflexivity.
  - intros Hmiss. split.
    + intros c f ->. unfold get_profile_url. by destruct Hmiss as [-> | ->].
    + intros Hno. unfold get_profile_url.
      by destruct Hmiss as [-> | ->], Hno as [-> | ->].
Qed.

Lemma get_profile_url_fallback_chain_witness :
  let self := {| platforms := {[ lit "Tumblr" := lit "https://{}.tumblr.com" ]};
                 categories := ∅ |} in
  get_profile_url self "Tumblr" "testuser" None = Some (Ok (lit "https://testuser.tumblr.com"))
  /\ get_profile_url self "NonExistentPlatform" "testuser" (Some (lit "https://example.com/testuser"))
     = Some (Ok (lit "https://example.com/testuser"))
  /\ get_profile_url self "NonExistentPlatform" "testuser" None
     = Some (Ok (lit "Unknown platform: NonExistentPlatform")).
Proof.
  intros self. split; [|split].
  - destruct (get_profile_url_fallback_chain self "Tumblr" "testuser" None) as (_ & Hone & _).
    apply (Hone "https://" ".tumblr.com"); reflexivity.
  - destruct (get_profile_url_fallback_chain self "NonExistentPlatform" "testuser"
                (Some (lit "https://example.com/testuser"))) as (_ & _ & Hmiss).
    destruct Hmiss as [Hfall _]; [left; reflexivity|].
    apply (Hfall "h"%char "ttps://example.com/testuser"). reflexivity.
  - destruct (get_profile_url_fallback_chain self "NonExistentPlatform" "testuser" None)
      as (_ & _ & Hmiss).
    destruct Hmiss as [_ Hunknown]; [left; reflexivity|].
    apply Hunknown. left. reflexivity.
Defined.

(** The assertions of [test_get_profile_url], on the default tables: a name
    the platform table lacks ("GitHub" is in the categories only) gives the
    message, not [None]. *)
Example test_get_profile_url :
  get_profile_url _load_default_platforms "GitHub" "testuser" None
  = Some (Ok (lit "Unknown platform: GitHub"))
  /\ get_profile_url _load_default_platforms "GitLab" "testuser" None
     = Some (Ok (lit "https://gitlab.com/testuser"))
  /\ get_profile_url _load_default_platforms "NonExistentPlatform" "testuser"
       (Some (lit "https://example.com/testuser"))
     = Some (Ok (lit "https://example.com/testuser"))
  /\ get_profile_url _load_default_platforms "NonExistentPlatform" "testuser" None
     = Some (Ok (lit "Unknown platform: NonExistentPlatform")).
Proof. vm_compute. repeat split. Qed.

(** * Further properties of the code *)

(** ** blackbirdv2.py: the freshness controller *)

Opaque hashJSON json_loads json_dumps.

(** X1.  Whatever the files and the server, a run of [checkUpdates] touches
    no file but the catalog file; when it raises a network error or
    [JSONDecodeError] the catalog file too is as it was; and it sends at
    most two requests. *)
Theorem checkUpdates_footprint cfg w res w' :
  checkUpdates cfg w = (res, w') ->
  (forall path, path <> listFileName cfg -> files w' !! path = files w !! path)
  /\ ((exists k, res = Raise (NetworkError k)) \/ res = Raise JSONDecodeError ->
      files w' = files w)
  /\ (served w <= served w' <= served w + 2)%nat.
Proof.
  intros H. run_all.
  repeat (case_match; simplify_eq; cbn in *; simplify_eq);
    (split; [intros path Hne; by rewrite ?lookup_insert_ne|]);
    (split; [by intros [[? ?]|?]|lia]).
Qed.

Transparent hashJSON json_loads json_dumps.

Lemma checkUpdates_footprint_witness :
  let w := world0 (Some stale_text) None (Failed TimedOut) in
  (checkUpdates cfg0 w).1 = Raise (NetworkError TimedOut)
  /\ files (checkUpdates cfg0 w).2 = files w.
Proof.
  intros w. split; [vm_compute; reflexivity|].
  destruct (checkUpdates_footprint cfg0 w (Raise (NetworkError TimedOut))
              (checkUpdates cfg0 w).2) as (_ & Hkept & _).
  - vm_compute. reflexivity.
  - apply Hkept. left. exists TimedOut. reflexivity.
Defined.

(** X2.  A local catalog that does not decode is never repaired: the run
    raises [JSONDecodeError] after its first line, before any request, and
    so does every later run, the files and the count of requests staying
    as they were. *)
Theorem checkUpdates_corrupt_local_persists cfg w text n :
  files w !! listFileName cfg = Some text ->
  json_loads text = None ->
  let w_n := Nat.iter n (fun w0 => (checkUpdates cfg w0).2) w in
  checkUpdates cfg w_n
  = (Raise JSONDecodeError, emit [lit "[-] Checking for updates..."] w_n)
  /\ files w_n = files w
  /\ served w_n = served w.
Proof.
  intros Hf Hd. cbn zeta. induction n as [|n IH].
  - change (Nat.iter 0 _ w) with w.
    by rewrite (checkUpdates_undecodable_local cfg w text Hf Hd).
  - rewrite Nat.iter_succ. destruct IH as (Hrun & Hfiles & Hserved).
    rewrite Hrun. cbn [snd].
    rewrite (checkUpdates_undecodable_local cfg _ text) by (cbn [emit files]; by rewrite ?Hfiles).
    cbn [emit files served]. by rewrite Hfiles, Hserved.
Qed.

Lemma checkUpdates_corrupt_local_persists_witness :
  let w := world0 (Some (take 12 (json_dumps dump_encoder catalog0))) None
             (respond 200 catalog_text) in
  let w2 := Nat.iter 2 (fun w0 => (checkUpdates cfg0 w0).2) w in
  checkUpdates cfg0 w2
  = (Raise JSONDecodeError, emit [lit "[-] Checking for updates..."] w2)
  /\ files w2 = files w
  /\ served w2 = served w.
Proof.
  intros w.
  apply (checkUpdates_corrupt_local_persists cfg0 w
           (take 12 (json_dumps dump_encoder catalog0)) 2).
  - vm_compute. reflexivity.
  - vm_compute. reflexivity.
Defined.

(** X3.  When the local catalog differs from what the server sends,
    [checkUpdates] asks the server a second time and writes the second
    answer, not the one it compared: two requests, and the catalog file
    holds the document of the second response, which [readList] reads
    back. *)
Theorem checkUpdates_writes_second_fetch cfg w text L r1 r2 :
  files w !! listFileName cfg = Some text ->
  json_loads text = Some L ->
  server w (served w) "GET" (listURL cfg) = Completed r1 ->
  hashJSON L <> hashJSON (swallow (requests_json r1)) ->
  server w (S (served w)) "GET" (listURL cfg) = Completed r2 ->
  disk_budget w = None ->
  exists w',
    checkUpdates cfg w = (Ok tt, w')
    /\ served w' = S (S (served w))
    /\ files w' !! listFileName cfg
       = Some (json_dumps dump_encoder (swallow (requests_json r2)))
    /\ readList cfg w' = (Ok (swallow (requests_json r2)), w').
Proof.
  intros Hf HL H1 Hh H2 Hd.
  rewrite (checkUpdates_present cfg w text L r1 Hf HL H1). cbn zeta.
  rewrite decide_True by done.
  match goal with
  | |- context [downloadList cfg ?w1] => rewrite (downloadList_completed cfg w1 r2 H2)
  end.
  rewrite write_file_ok by done. eexists. split; [reflexivity|]. split; [done|]. split.
  - apply lookup_insert_eq.
  - apply readList_written. apply json_loads_dumps; [done|apply swallow_wf].
Qed.

Lemma checkUpdates_writes_second_fetch_witness :
  exists w',
    checkUpdates cfg0 moving_world = (Ok tt, w')
    /\ served w' = 2%nat
    /\ files w' !! listFileName cfg0 = Some (json_dumps dump_encoder two_sites)
    /\ readList cfg0 w' = (Ok two_sites, w').
Proof.
  apply (checkUpdates_writes_second_fetch cfg0 moving_world stale_text
           (JObj [(lit "sites", JArr [])])
           {| status := 200; json_content_type := true; body := catalog_text |}
           {| status := 200; json_content_type := true; body := two_sites_text |}).
  - vm_compute. reflexivity.
  - vm_compute. reflexivity.
  - reflexivity.
  - vm_compute. discriminate.
  - reflexivity.
  - reflexivity.
Defined.

(** X4.  With a server that keeps sending the same decodable catalog and a
    device that takes the writes, a run of [checkUpdates] that returns
    leaves the catalog current: the next run returns too, changes no file
    and prints that the list is up to date. *)
Theorem checkUpdates_then_up_to_date cfg w r C w1 :
  (forall n, server w n "GET" (listURL cfg) = Completed r) ->
  requests_json r = Some C ->
  disk_budget w = None ->
  checkUpdates cfg w = (Ok tt, w1) ->
  exists w2,
    checkUpdates cfg w1 = (Ok tt, w2)
    /\ files w2 = files w1
    /\ console w2
       = console w1 ++ [lit "[-] Checking for updates..."; lit "[+] List is up to date"].
Proof.
  intros Hs HC Hd Hrun.
  assert (HwfC : wf_json C) by (by apply (json_loads_wf (body r))).
  assert (Hrt := json_loads_dumps dump_encoder eq_refl C HwfC).
  assert (Hagain : forall w1 text L,
            server w1 = server w -> files w1 !! listFileName cfg = Some text ->
            json_loads text = Some L -> hashJSON L = hashJSON C ->
            exists w2, checkUpdates cfg w1 = (Ok tt, w2) /\ files w2 = files w1
              /\ console w2 = console w1
                   ++ [lit "[-] Checking for updates..."; lit "[+] List is up to date"]).
  { intros w0 text L Es Hf HL Hh.
    rewrite (checkUpdates_present cfg w0 text L r Hf HL) by (rewrite Es; apply Hs).
    rewrite HC. cbn [swallow]. cbn zeta. rewrite decide_False by (intros Hne; by apply Hne).
    eexists. split; [reflexivity|]. split; [done|]. cbn. by rewrite <- app_assoc. }
  destruct (files w !! listFileName cfg) as [text|] eqn:Hf.
  - destruct (json_loads text) as [L|] eqn:HL.
    2:{ rewrite (checkUpdates_undecodable_local cfg w text Hf HL) in Hrun. done. }
    rewrite (checkUpdates_present cfg w text L r Hf HL (Hs _)) in Hrun.
    rewrite HC in Hrun. cbn [swallow] in Hrun. cbn zeta in Hrun.
    destruct (decide (hashJSON L <> hashJSON C)) as [Hne|Heq].
    + match type of Hrun with
      | context [downloadList cfg ?w0] =>
          rewrite (downloadList_completed cfg w0 r (Hs _)), HC in Hrun
      end.
      cbn [swallow] in Hrun. rewrite write_file_ok in Hrun by done. simplify_eq.
      apply (Hagain _ (json_dumps dump_encoder C) C); [done| |done|done].
      apply lookup_insert_eq.
    + simplify_eq. apply (Hagain _ text L); [done|done|done|].
      by destruct (decide (hashJSON L = hashJSON C)); [|exfalso; by apply Heq].
  - rewrite (checkUpdates_absent cfg w Hf) in Hrun.
    match type of Hrun with
    | context [downloadList cfg ?w0] =>
        rewrite (downloadList_completed cfg w0 r (Hs _)), HC in Hrun
    end.
    cbn [swallow] in Hrun. rewrite write_file_ok in Hrun by done. simplify_eq.
    apply (Hagain _ (json_dumps dump_encoder C) C); [done| |done|done].
    apply lookup_insert_eq.
Qed.

Lemma checkUpdates_then_up_to_date_witness :
  let w := world0 (Some stale_text) None (respond 200 catalog_text) in
  let w1 := (checkUpdates cfg0 w).2 in
  exists w2,
    checkUpdates cfg0 w1 = (Ok tt, w2)
    /\ files w2 = files w1
    /\ console w2
       = console w1 ++ [lit "[-] Checking for updates..."; lit "[+] List is up to date"].
Proof.
  intros w w1.
  apply (checkUpdates_then_up_to_date cfg0 w
           {| status := 200; json_content_type := true; body := catalog_text |} catalog0 w1).
  - intros n. reflexivity.
  - vm_compute. reflexivity.
  - reflexivity.
  - vm_compute. reflexivity.
Defined.

(** X5.  A remote catalog that is the local one with the keys of its
    objects in another order is no update: [checkUpdates] sends its one
    request and leaves the files as they were. *)
Theorem checkUpdates_ignores_key_order cfg w text L r C :
  files w !! listFileName cfg = Some text ->
  json_loads text = Some L ->
  server w (served w) "GET" (listURL cfg) = Completed r ->
  requests_json r = Some C ->
  reordered L C ->
  exists w', checkUpdates cfg w = (Ok tt, w') /\ files w' = files w
             /\ served w' = S (served w).
Proof.
  intros Hf HL Hs HC Hr.
  rewrite (checkUpdates_present cfg w text L r Hf HL Hs), HC. cbn [swallow]. cbn zeta.
  assert (Hh : hashJSON L = hashJSON C).
  { unfold hashJSON, json_dumps.
    by rewrite (encode_reordered hash_encoder eq_refl L (json_loads_wf text L HL) C 0 Hr). }
  rewrite decide_False by (intros Hne; by apply Hne). eauto.
Qed.

Lemma checkUpdates_ignores_key_order_witness :
  let w := world0 (Some catalog_text) None
             (respond 200 (json_dumps dump_encoder catalog0_reordered)) in
  exists w', checkUpdates cfg0 w = (Ok tt, w') /\ files w' = files w
             /\ served w' = S (served w).
Proof.
  intros w.
  apply (checkUpdates_ignores_key_order cfg0 w catalog_text catalog0
           {| status := 200; json_content_type := true;
              body := json_dumps dump_encoder catalog0_reordered |}
           catalog0_reordered).
  - vm_compute. reflexivity.
  - vm_compute. reflexivity.
  - reflexivity.
  - vm_compute. reflexivity.
  - exact catalog0_reordered_ok.
Defined.

(** X6.  The first run, with no local catalog, against a server whose
    answer does not decode: [checkUpdates] returns, the catalog file it
    creates holds [null], and every [fetchResults] after it raises
    [TypeError] without a probe. *)
Theorem checkUpdates_absent_undecodable cfg w r :
  files w !! listFileName cfg = None ->
  server w (served w) "GET" (listURL cfg) = Completed r ->
  requests_json r = None ->
  disk_budget w = None ->
  exists w',
    checkUpdates cfg w = (Ok tt, w')
    /\ files w' !! listFileName cfg = Some (lit "null")
    /\ forall username sched, fetchResults cfg username sched w' = (Raise TypeError, w').
Proof.
  intros Hf Hs Hr Hd. rewrite (checkUpdates_absent cfg w Hf).
  match goal with
  | |- context [downloadList cfg ?w0] => rewrite (downloadList_completed cfg w0 r Hs), Hr
  end.
  cbn [swallow]. rewrite write_file_ok by done.
  eexists. split; [reflexivity|]. split; [apply lookup_insert_eq|].
  intros username sched. unfold fetchResults. run_bind.
  rewrite (readList_written cfg _ JNull) by reflexivity. done.
Qed.

Lemma checkUpdates_absent_undecodable_witness :
  let w := world0 None None (respond 503 html_page) in
  exists w',
    checkUpdates cfg0 w = (Ok tt, w')
    /\ files w' !! listFileName cfg0 = Some (lit "null")
    /\ forall username sched, fetchResults cfg0 username sched w' = (Raise TypeError, w').
Proof.
  intros w.
  apply (checkUpdates_absent_undecodable cfg0 w
           {| status := 503; json_content_type := true; body := html_page |}).
  - reflexivity.
  - reflexivity.
  - vm_compute. reflexivity.
  - reflexivity.
Defined.

(** ** blackbirdv2.py: the probes *)

(** X7.  For a catalog of [N] well-formed sites, [fetchResults] returns the
    same list of [N] results under every order in which the event loop
    resumes the probes, and leaves the world as it was but for [N] lines
    [Sending request...] on the console. *)
Theorem fetchResults_final_world cfg w username text data ts :
  files w !! listFileName cfg = Some text ->
  json_loads text = Some data ->
  catalog_templates data = Some ts ->
  exists results,
    length results = length ts
    /\ forall sched, settles sched (length ts) ->
         fetchResults cfg username sched w
         = (Ok (Some results), emit (replicate (length ts) sending) w).
Proof.
  intros Hf Hd Ht. apply catalog_templates_inv in Ht as (d & sites & -> & Hs & Ht).
  exists (imap (fun i url => probe_result w i "GET" url)
            (map (fun t => str_replace placeholder username t) ts)).
  split; [by rewrite length_imap, length_map|].
  intros sched Hsched. rewrite (fetchResults_catalog cfg w username sched text d sites Hf Hd Hs).
  rewrite (make_tasks_templates username sites ts Ht).
  rewrite <- (map_map (fun t => str_replace placeholder username t) (Created "GET")).
  rewrite gather_settles_world by (by rewrite length_map). by rewrite length_map.
Qed.

Lemma fetchResults_final_world_witness :
  let w := probing_world two_sites_text (fun _ => Completed found_response) in
  exists results,
    length results = length two_templates
    /\ fetchResults cfg0 "alice" [1; 0; 1; 0; 0; 1]%nat w
       = (Ok (Some results), emit (replicate (length two_templates) sending) w)
    /\ fetchResults cfg0 "alice" [0; 0; 0; 1; 1; 1]%nat w
       = (Ok (Some results), emit (replicate (length two_templates) sending) w).
Proof.
  intros w.
  destruct (fetchResults_final_world cfg0 w "alice" two_sites_text two_sites two_templates)
    as (results & Hlen & Hall).
  - vm_compute. reflexivity.
  - vm_compute. reflexivity.
  - vm_compute. reflexivity.
  - exists results. split; [exact Hlen|].
    split; apply Hall; apply settles_turns; vm_compute; reflexivity.
Defined.

(** X8.  A site without a usable [uri_check] aborts the whole batch: when
    the sites before it are well formed, [fetchResults] raises what the
    lookup of that site raises ([KeyError] for a missing key), no probe is
    sent for any site and nothing is printed. *)
Theorem fetchResults_malformed_site cfg w username sched text d good bad rest :
  files w !! listFileName cfg = Some text ->
  json_loads text = Some (JObj d) ->
  dict_get "sites" d = Some (JArr (good ++ bad :: rest)) ->
  is_Some (mapM site_template good) ->
  site_template bad = None ->
  exists e, probe_url username bad = Raise e
    /\ fetchResults cfg username sched w = (Raise e, w)
    /\ (forall fields, bad = JObj fields -> dict_get "uri_check" fields = None ->
          e = KeyError "uri_check").
Proof.
  intros Hf Hd Hs Hg Hb. destruct (site_template_None username bad Hb) as [e He].
  exists e. split; [done|]. split.
  - rewrite (fetchResults_catalog cfg w username sched text d _ Hf Hd Hs).
    by rewrite (make_tasks_app_raise username good bad rest e Hg He).
  - intros fields -> Hk. unfold probe_url, subscript in He. rewrite Hk in He. by simplify_eq.
Qed.

Lemma fetchResults_malformed_site_witness :
  let w := probing_world broken_text (fun _ => Completed found_response) in
  fetchResults cfg0 "alice" [0; 0; 0; 1; 1; 1]%nat w = (Raise (KeyError "uri_check"), w).
Proof.
  intros w.
  destruct (fetchResults_malformed_site cfg0 w "alice" [0; 0; 0; 1; 1; 1]%nat broken_text
              broken_items
              [JObj [(lit "uri_check", JStr "https://example.com/{account}")]]
              (JObj [(lit "name", JStr "Broken")]) [])
    as (e & _ & Hrun & Hkey).
  - vm_compute. reflexivity.
  - vm_compute. reflexivity.
  - reflexivity.
  - eexists. reflexivity.
  - reflexivity.
  - rewrite Hrun. rewrite (Hkey [(lit "name", JStr "Broken")]); reflexivity.
Defined.

(** X9.  An exception that leaves [fetchResults] was raised before the
    event loop ran: the world is as it was, no probe was started and
    nothing was printed; and it is not an error of the network, whatever
    the servers answer to the probes. *)
Theorem fetchResults_raises_early cfg w username sched e w' :
  fetchResults cfg username sched w = (Raise e, w') ->
  w' = w /\ forall k, e <> NetworkError k.
Proof.
  unfold fetchResults. run_bind. unfold readList. run_bind. unfold read_file.
  destruct (files w !! listFileName cfg) as [text|]; [|by intros [= <- <-]].
  destruct (json_loads text) as [data|]; [|by intros [= <- <-]].
  cbn [mret M_ret]. run_bind. unfold lift at 1.
  destruct (subscript data "sites") as [sites|e1] eqn:E1.
  2:{ intros [= <- <-]. split; [done|]. intros k ->. unfold subscript in E1.
      repeat case_match; simplify_eq. }
  run_bind. unfold lift at 1.
  destruct (iterate sites) as [items|e2] eqn:E2.
  2:{ intros [= <- <-]. split; [done|]. intros k ->. unfold iterate in E2.
      repeat case_match; simplify_eq. }
  run_bind. unfold lift at 1.
  destruct (make_tasks username items) as [tasks|e3] eqn:E3.
  2:{ intros [= <- <-]. split; [done|]. intros k ->. apply make_tasks_raise in E3.
      by destruct E3 as [[? ?]|[?|?]]. }
  unfold gather. destruct (run_loop w sched tasks). done.
Qed.

Lemma fetchResults_raises_early_witness :
  let w := probing_world broken_text (fun _ => Failed ConnectionRefused) in
  (fetchResults cfg0 "alice" [0; 0; 0; 1; 1; 1]%nat w).2 = w
  /\ forall k, KeyError "uri_check" <> NetworkError k.
Proof.
  intros w.
  apply (fetchResults_raises_early cfg0 w "alice" [0; 0; 0; 1; 1; 1]%nat (KeyError "uri_check")
           (fetchResults cfg0 "alice" [0; 0; 0; 1; 1; 1]%nat w).2).
  vm_compute. reflexivity.
Defined.

(** X10.  [verifyUsername] prints one line [Sending request...] per site
    and then one line per result, the i-th of them for the probe of the
    i-th site of the catalog, whatever the order in which the probes
    completed. *)
Theorem verifyUsername_prints_every_result cfg render w username text data ts :
  files w !! listFileName cfg = Some text ->
  json_loads text = Some data ->
  catalog_templates data = Some ts ->
  exists results,
    length results = length ts
    /\ (forall i t, ts !! i = Some t ->
          results !! i = Some (probe_result w i "GET" (str_replace placeholder username t)))
    /\ forall sched, settles sched (length ts) ->
         verifyUsername cfg render username sched w
         = (Ok (Some tt),
            emit (replicate (length ts) sending ++ map render results) w).
Proof.
  intros Hf Hd Ht. pose proof Ht as Ht'.
  apply catalog_templates_inv in Ht' as (d & sites & -> & Hs & Hm).
  exists (imap (fun i url => probe_result w i "GET" url)
            (map (fun t => str_replace placeholder username t) ts)).
  split; [by rewrite length_imap, length_map|]. split.
  - intros i t Hi. by rewrite list_lookup_imap, list_lookup_fmap, Hi.
  - intros sched Hsched. unfold verifyUsername. run_bind.
    rewrite (fetchResults_catalog cfg w username sched text d sites Hf Hd Hs).
    rewrite (make_tasks_templates username sites ts Hm).
    rewrite <- (map_map (fun t => str_replace placeholder username t) (Created "GET")).
    rewrite gather_settles_world by (by rewrite length_map). rewrite length_map.
    run_bind. rewrite for_each_print. by rewrite emit_emit.
Qed.

Lemma verifyUsername_prints_every_result_witness :
  let w := probing_world two_sites_text
             (fun i => match i with
                       | O => Failed ConnectionRefused
                       | S _ => Completed found_response
                       end) in
  exists results,
    length results = length two_templates
    /\ (forall i t, two_templates !! i = Some t ->
          results !! i = Some (probe_result w i "GET" (str_replace placeholder "alice" t)))
    /\ verifyUsername cfg0 render0 "alice" [1; 0; 1; 0; 0; 1]%nat w
       = (Ok (Some tt),
          emit (replicate (length two_templates) sending ++ map render0 results) w).
Proof.
  intros w.
  destruct (verifyUsername_prints_every_result cfg0 render0 w "alice" two_sites_text
              two_sites two_templates) as (results & Hlen & Hnth & Hall).
  - vm_compute. reflexivity.
  - vm_compute. reflexivity.
  - vm_compute. reflexivity.
  - exists results. split; [exact Hlen|]. split; [exact Hnth|].
    apply Hall. apply settles_turns. vm_compute. reflexivity.
Defined.

(** X11.  Every occurrence of the placeholder is replaced: for a
    [uri_check] made of pieces without the placeholder, joined by it, the
    URL probed is the pieces joined by the username, and a username that
    holds the placeholder is not substituted again. *)
Theorem probe_url_every_occurrence username fields segs :
  dict_get "uri_check" fields = Some (JStr (join placeholder segs)) ->
  Forall (fun s => contains placeholder s = false) segs ->
  probe_url username (JObj fields) = Ok (join username segs).
Proof.
  intros Hf Hsegs. rewrite <- (replace_join username segs Hsegs).
  unfold probe_url, subscript. by rewrite Hf.
Qed.

Lemma probe_url_every_occurrence_witness :
  probe_url "{account}" (JObj [(lit "uri_check", JStr "https://{account}.example.com/{account}")])
  = Ok (lit "https://{account}.example.com/{account}")
  /\ probe_url "bob" (JObj [(lit "uri_check", JStr "https://{account}.example.com/{account}")])
     = Ok (lit "https://bob.example.com/bob").
Proof.
  split.
  - apply (probe_url_every_occurrence "{account}"
             [(lit "uri_check", JStr "https://{account}.example.com/{account}")]
             [lit "https://"; lit ".example.com/"; []]).
    + reflexivity.
    + repeat constructor.
  - apply (probe_url_every_occurrence "bob"
             [(lit "uri_check", JStr "https://{account}.example.com/{account}")]
             [lit "https://"; lit ".example.com/"; []]).
    + reflexivity.
    + repeat constructor.
Defined.

(** ** platform_manager.py *)

(** X13.  After [add_platform], [get_profile_url] of the added name formats
    the new template when it is not empty, a template with one [{}]
    giving the text around it with the username inside; an empty template
    counts as none, and the answer is the fallback when there is a
    non-empty one and the message otherwise; for every other name the
    answer is as before. *)
Theorem add_platform_then_get_profile_url self name t cats username fallback :
  get_profile_url (add_platform self name t cats) name username fallback
  = match t, fallback with
    | _ :: _, _ => str_format t username
    | [], Some (c :: f) => Some (Ok (c :: f))
    | [], _ => Some (Ok ("Unknown platform: " ++ name))
    end
  /\ (forall pre post,
        t = pre ++ "{}" ++ post -> brace_free pre = true -> brace_free post = true ->
        get_profile_url (add_platform self name t cats) name username fallback
        = Some (Ok (pre ++ username ++ post)))
  /\ (forall other, other <> name ->
        get_profile_url (add_platform self name t cats) other username fallback
        = get_profile_url self other username fallback).
Proof.
  unfold get_profile_url. rewrite add_platform_platforms.
  split; [|split].
  - rewrite lookup_insert_eq. by destruct t, fallback as [[|]|].
  - intros pre post -> Hpre Hpost. rewrite lookup_insert_eq.
    rewrite <- str_format_one_field by done. by destruct pre.
  - intros other Hne. by rewrite lookup_insert_ne.
Qed.

Lemma add_platform_then_get_profile_url_witness :
  get_profile_url
    (add_platform _load_default_platforms "TestPlatform" "https://test.com/{}"
       (Some [lit "testing"]))
    "TestPlatform" "testuser" None
  = Some (Ok (lit "https://test.com/testuser"))
  /\ get_profile_url
       (add_platform _load_default_platforms "TestPlatform" "https://test.com/{}"
          (Some [lit "testing"]))
       "GitLab" "testuser" None
     = get_profile_url _load_default_platforms "GitLab" "testuser" None.
Proof.
  destruct (add_platform_then_get_profile_url _load_default_platforms "TestPlatform"
              "https://test.com/{}" (Some [lit "testing"]) "testuser" None)
    as (_ & Hone & Hother).
  split.
  - apply (Hone "https://test.com/" []); reflexivity.
  - apply Hother. vm_compute. discriminate.
Defined.

(** X14.  [add_platform] with categories lists the platform in each of
    them and changes no other category; member lists without duplicates
    stay without duplicates; and adding the same platform again changes
    nothing. *)
Theorem add_platform_lists_once self name t l :
  (forall c, c ∈ l ->
     name ∈ get_platforms_by_category (add_platform self name t (Some l)) c)
  /\ (forall c, c ∉ l ->
        get_platforms_by_category (add_platform self name t (Some l)) c
        = get_platforms_by_category self c)
  /\ (map_Forall (fun _ members => NoDup members) (categories self) ->
      map_Forall (fun _ members => NoDup members)
        (categories (add_platform self name t (Some l))))
  /\ add_platform (add_platform self name t (Some l)) name t (Some l)
     = add_platform self name t (Some l).
Proof.
  unfold get_platforms_by_category.
  split; [|split; [|split]].
  - intros c Hc. rewrite add_platform_categories.
    destruct (enlist_all_listed name l (categories self) c (or_introl Hc)) as (m & -> & Hin).
    done.
  - intros c Hc. rewrite add_platform_categories.
    by rewrite enlist_all_other.
  - rewrite add_platform_categories.
    generalize (categories self). induction l as [|c l IH]; intros cs H; cbn [fold_left]; [done|].
    apply IH. by apply enlist_nodup.
  - apply manager_eq.
    + by rewrite !add_platform_platforms, insert_insert_eq.
    + rewrite add_platform_categories. apply enlist_all_id.
      intros c Hc. rewrite add_platform_categories.
      apply enlist_all_listed. by left.
Qed.

Lemma add_platform_lists_once_witness :
  lit "GitLab" ∈ get_platforms_by_category
                   (add_platform _load_default_platforms "GitLab" "https://gitlab.com/{}"
                      (Some [lit "social"; lit "tech"])) "social"
  /\ map_Forall (fun _ members => NoDup members)
       (categories (add_platform _load_default_platforms "GitLab" "https://gitlab.com/{}"
                      (Some [lit "social"; lit "tech"]))).
Proof.
  destruct (add_platform_lists_once _load_default_platforms "GitLab" "https://gitlab.com/{}"
              [lit "social"; lit "tech"]) as (Hin & _ & Hnodup & _).
  split.
  - apply Hin. by_compute.
  - apply Hnodup. by_compute.
Defined.

(** X15.  [remove_platform] of a name without a template changes nothing
    and answers [False].  Of a name with a template it answers [True],
    drops the template and keeps the others, keeps every category, and
    takes from each member list the first occurrence of the name, the
    rest staying in order: the name is gone from a list that held it once,
    and still listed where it was held twice. *)
Theorem remove_platform_effect self name :
  (platforms self !! name = None -> remove_platform self name = (false, self))
  /\ (forall t, platforms self !! name = Some t ->
      exists self',
        remove_platform self name = (true, self')
        /\ platforms self' !! name = None
        /\ (forall other, other <> name -> platforms self' !! other = platforms self !! other)
        /\ (forall c, categories self !! c = None -> categories self' !! c = None)
        /\ (forall c members, categories self !! c = Some members ->
              exists members',
                categories self' !! c = Some members'
                /\ (name ∉ members -> members' = members)
                /\ (name ∈ members ->
                    exists pre post,
                      members = pre ++ name :: post /\ (name ∉ pre) /\ members' = pre ++ post)
                /\ (NoDup members -> name ∉ members'))).
Proof.
  unfold remove_platform. split.
  - intros H. rewrite decide_False; [done|]. rewrite H. by intros [? ?].
  - intros t H. rewrite decide_True by (rewrite H; eauto).
    eexists. split; [reflexivity|]. cbn [platforms categories].
    split; [apply lookup_delete_eq|]. split; [intros other Hne; by apply lookup_delete_ne|].
    split.
    + intros c Hc. by rewrite lookup_fmap, Hc.
    + intros c members Hc. rewrite lookup_fmap, Hc. cbn. eexists. split; [reflexivity|].
      destruct (decide (name ∈ members)) as [Hin|Hout].
      * split; [done|]. split; [intros _; by apply remove_first_split|].
        apply remove_first_nodup.
      * split; [done|]. split; [done|]. done.
Qed.

Lemma remove_platform_effect_witness :
  exists self',
    remove_platform listed_twice "Example" = (true, self')
    /\ platforms self' !! lit "Example" = None
    /\ exists members' pre post,
         categories self' !! lit "misc" = Some members'
         /\ [lit "Example"; lit "Other"; lit "Example"] = pre ++ lit "Example" :: post
         /\ (lit "Example" ∉ pre)
         /\ members' = pre ++ post.
Proof.
  destruct (remove_platform_effect listed_twice "Example") as [_ Hpresent].
  destruct (Hpresent "https://example.com/{}") as (self' & Hrun & Hgone & _ & _ & Hcats).
  - reflexivity.
  - exists self'. split; [exact Hrun|]. split; [exact Hgone|].
    destruct (Hcats "misc" [lit "Example"; lit "Other"; lit "Example"])
      as (members' & Hc & _ & Hsplit & _).
    + reflexivity.
    + destruct Hsplit as (pre & post & Heq & Hpre & Hm); [by_compute|].
      exists members', pre, post. repeat split; assumption.
Defined.

(** X16.  Removing a platform that [add_platform] has just added, when the
    name was new to the manager, gives the manager back as it was if no
    category was named; a category that the addition created stays,
    empty. *)
Theorem remove_after_add self name t :
  platforms self !! name = None ->
  map_Forall (fun _ members => name ∉ members) (categories self) ->
  remove_platform (add_platform self name t None) name = (true, self)
  /\ (forall c, categories self !! c = None ->
        get_platforms_by_category
          (remove_platform (add_platform self name t (Some [c])) name).2 c = []
        /\ is_Some (get_all_categories
                      (remove_platform (add_platform self name t (Some [c])) name).2 !! c)).
Proof.
  intros Hp Hc. split.
  - unfold remove_platform, add_platform. cbn [platforms categories].
    rewrite decide_True by (rewrite lookup_insert_eq; eauto). f_equal.
    apply manager_eq; cbn [platforms categories].
    + by rewrite delete_insert_eq, delete_id.
    + apply map_eq. intros c. rewrite lookup_fmap.
      destruct (categories self !! c) as [m|] eqn:E; [|done]. cbn.
      by rewrite decide_False by (by eapply Hc).
  - intros c Hnew. unfold remove_platform, add_platform, get_platforms_by_category,
      get_all_categories. cbn [platforms categories fold_left].
    rewrite decide_True by (rewrite lookup_insert_eq; eauto). cbn [snd categories].
    rewrite Hnew. rewrite lookup_fmap, lookup_insert_eq. cbn.
    rewrite decide_True by left. cbn. rewrite decide_True by done. eauto.
Qed.

Lemma remove_after_add_witness :
  remove_platform
    (add_platform _load_default_platforms "TestPlatform" "https://test.com/{}" None)
    "TestPlatform"
  = (true, _load_default_platforms)
  /\ get_platforms_by_category
       (remove_platform
          (add_platform _load_default_platforms "TestPlatform" "https://test.com/{}"
             (Some [lit "testing"])) "TestPlatform").2 "testing" = [].
Proof.
  destruct (remove_after_add _load_default_platforms "TestPlatform" "https://test.com/{}")
    as [Hback Hcat].
  - vm_compute. reflexivity.
  - by_compute.
  - split; [exact Hback|]. destruct (Hcat "testing") as [Hempty _]; [|exact Hempty].
    vm_compute. reflexivity.
Defined.

(** X17.  The tables of [_load_default_platforms]: every template has one
    [{}] and no other brace, so that [get_profile_url] of a default
    platform is the text around it with the username inside, for every
    username and whatever the fallback; every member of a category has a
    template, but [GitHub], which the categories list and the platforms
    lack, so that [get_profile_url] answers that it is unknown. *)
Theorem default_platforms_resolve :
  (forall name t, get_all_platforms _load_default_platforms !! name = Some t ->
     exists pre post,
       t = pre ++ "{}" ++ post /\ brace_free pre = true /\ brace_free post = true
       /\ forall username fallback,
            get_profile_url _load_default_platforms name username fallback
            = Some (Ok (pre ++ username ++ post)))
  /\ (forall category name,
        name ∈ get_platforms_by_category _load_default_platforms category ->
        name <> lit "GitHub" ->
        is_Some (get_all_platforms _load_default_platforms !! name))
  /\ lit "GitHub" ∈ get_platforms_by_category _load_default_platforms "tech"
  /\ forall username,
       get_profile_url _load_default_platforms "GitHub" username None
       = Some (Ok (lit "Unknown platform: GitHub")).
Proof.
  split; [|split; [|split]].
  - intros name t Ht. unfold get_all_platforms in Ht. cbn [platforms _load_default_platforms] in Ht.
    assert (Hone : one_field t = true).
    { apply elem_of_list_to_map_2 in Ht. revert Ht.
      match goal with
      | |- (name, t) ∈ ?l -> _ =>
          assert (Hall : Forall (fun p => one_field p.2 = true) l)
            by by_compute;
          intros Hin; exact (proj1 (Forall_forall _ _) Hall _ Hin)
      end. }
    destruct (one_field_spec t Hone) as (pre & post & -> & Hpre & Hpost).
    exists pre, post. split; [done|]. split; [done|]. split; [done|]. intros username fallback.
    unfold get_profile_url. cbn [platforms _load_default_platforms]. rewrite Ht.
    destruct pre as [|c pre]; by rewrite <- (str_format_one_field username _ post).
  - intros category name Hin Hne. unfold get_platforms_by_category in Hin.
    cbn [categories _load_default_platforms] in Hin.
    destruct (default_categories !! category) as [members|] eqn:Hc; [|by apply elem_of_nil in Hin].
    cbn [default] in Hin. apply elem_of_list_to_map_2 in Hc. revert Hc.
    match goal with
    | |- (category, members) ∈ ?l -> _ =>
        assert (Hall : Forall (fun p => Forall (fun n => n = lit "GitHub"
                                                  \/ is_Some (default_platforms !! n)) p.2) l)
          by by_compute
    end.
    intros Hc. rewrite Forall_forall in Hall. specialize (Hall _ Hc).
    rewrite Forall_forall in Hall. by destruct (Hall _ Hin).
  - by_compute.
  - intros username. reflexivity.
Qed.

Lemma default_platforms_resolve_witness :
  (exists pre post,
     lit "https://{}.tumblr.com" = pre ++ "{}" ++ post
     /\ brace_free pre = true /\ brace_free post = true
     /\ forall username fallback,
          get_profile_url _load_default_platforms "Tumblr" username fallback
          = Some (Ok (pre ++ username ++ post)))
  /\ is_Some (get_all_platforms _load_default_platforms !! lit "Tumblr").
Proof.
  destruct default_platforms_resolve as (Hformat & Hlisted & _ & _).
  split.
  - apply (Hformat "Tumblr" "https://{}.tumblr.com"). vm_compute. reflexivity.
  - apply (Hlisted "social" "Tumblr").
    + by_compute.
    + vm_compute. discriminate.
Defined.
